(** * unstructured.ingest.cli.interfaces: the CLI configuration glue

    A shallow embedding of [unstructured/ingest/cli/interfaces.py]:
    the typed option parsers ([FileOrJson], [DelimitedString]), the option
    registration mixin ([CliMixin.add_params]) and the [from_dict]
    reconciliation steps of the per-concern configuration classes. *)

From Stdlib Require Import ZArith Ascii String List Floats.SpecFloat.
From stdpp Require Import gmap strings list fin_maps.

Local Set Warnings "-register-all".
Local Open Scope string_scope.

(** ** Python values carried by the flag mapping *)

(** The [Json] values a flag can hold after the command line was parsed. *)
Inductive pyval : Type :=
  | PyNone
  | PyBool (b : bool)
  | PyInt (z : Z)
  | PyFloat (f : spec_float)
  | PyStr (s : string)
  | PyList (items : list pyval)
  | PyDict (entries : list (string * pyval)).

(** Python truth value testing, as used by [if x], [not x], [any] and [all]. *)
Definition truthy (v : pyval) : bool :=
  match v with
  | PyNone => false
  | PyBool b => b
  | PyInt z => negb (z =? 0)%Z
  | PyFloat (S754_zero _) => false
  | PyFloat _ => true
  | PyStr s => negb (String.length s =? 0)%nat
  | PyList items => negb (length items =? 0)%nat
  | PyDict entries => negb (length entries =? 0)%nat
  end.

(** ** Dictionaries *)

Module PyDictOps.

(** [d.get(k)]: the value, or [None] when the key is absent. *)
Definition get (d : gmap string pyval) (k : string) : pyval :=
  default PyNone (d !! k).

(** [d.pop(k, None)]: the value (or [None]) and the dictionary without [k]. *)
Definition pop (d : gmap string pyval) (k : string) : pyval * gmap string pyval :=
  (default PyNone (d !! k), delete k d).

(** [dict(pairs)]: entries are stored in order, a later pair replaces an
    earlier one with the same key. *)
Definition dict_of_pairs (pairs : list (string * pyval)) : gmap string pyval :=
  fold_left (λ m kv, <[kv.1 := kv.2]> m) pairs ∅.

(** [k.startswith(p)] *)
Fixpoint startswith (p k : string) : bool :=
  match p with
  | EmptyString => true
  | String a p' =>
      match k with
      | EmptyString => false
      | String b k' => Ascii.eqb a b && startswith p' k'
      end
  end.

(** [k[n:]] *)
Fixpoint str_drop (n : nat) (k : string) : string :=
  match n with
  | O => k
  | S n' => match k with EmptyString => EmptyString | String _ k' => str_drop n' k' end
  end.

(** The generator [(k[len(p):], v) for k, v in d.items() if k.startswith(p)]. *)
Definition stripped_items (p : string) (d : gmap string pyval) : list (string * pyval) :=
  omap (λ kv, if startswith p kv.1
              then Some (str_drop (String.length p) kv.1, kv.2)
              else None)
       (map_to_list d).

(** The comprehension [{k[len(p):]: v for k, v in d.items() if k.startswith(p)}]. *)
Definition strip_prefix (p : string) (d : gmap string pyval) : gmap string pyval :=
  dict_of_pairs (stripped_items p d).

(** [len(d)] *)
Definition len (d : gmap string pyval) : nat := size d.

End PyDictOps.

Import PyDictOps.

(** ** Result of a reconciliation step *)

(** Modelled from the spec: the parent dataclasses ([ChunkingConfig],
    [EmbeddingConfig], [PermissionsConfig], [RetryStrategyConfig] of
    [unstructured.ingest.interfaces]) and their inherited [from_dict] are not
    part of this file.  A record is represented by the field set it is
    constructed from: [Built kvs] stands for [super().from_dict(kvs=kvs)].
    [Absent] is the [None] result and [Raised msg] a [ValueError(msg)]. *)
Inductive outcome : Type :=
  | Absent
  | Built (fields : gmap string pyval)
  | Raised (msg : string).

(** Modelled from the spec: reading a field of a constructed record, where a
    field missing from the field set takes the default the dataclass declares
    for it ("remaining fields defaulted"). *)
Definition record_field (defaults : string → pyval) (fields : gmap string pyval)
    (name : string) : pyval :=
  default (defaults name) (fields !! name).

(** ** CliChunkingConfig *)

Module CliChunkingConfig.

(** The pairs yielded by the local generator [iter_kv_pairs]. *)
Definition iter_kv_pairs (chunk_elements chunking_strategy : pyval)
    (options : gmap string pyval) : list (string * pyval) :=
  (if truthy chunking_strategy then [("chunking_strategy", chunking_strategy)]
   else if truthy chunk_elements then [("chunking_strategy", PyStr "by_title")]
   else [])
  ++ stripped_items "chunk_" options.

(** [CliChunkingConfig.from_dict] on a [dict]. *)
Definition from_dict (kvs : gmap string pyval) : outcome :=
  let options := kvs in
  let '(chunk_elements, options) := pop options "chunk_elements" in
  let '(chunking_strategy, options) := pop options "chunking_strategy" in
  if negb (truthy chunk_elements) && negb (truthy chunking_strategy) then Absent
  else
    let new_kvs := dict_of_pairs (iter_kv_pairs chunk_elements chunking_strategy options) in
    if (len new_kvs =? 0)%nat then Absent else Built new_kvs.

End CliChunkingConfig.

(** The flags left in [options] once both strategy flags were popped. *)
Definition remaining_flags (kvs : gmap string pyval) : gmap string pyval :=
  delete "chunking_strategy" (delete "chunk_elements" kvs).

(** The field set [new_kvs] built after the early return. *)
Definition merged_fields (kvs : gmap string pyval) : gmap string pyval :=
  dict_of_pairs
    (CliChunkingConfig.iter_kv_pairs (get kvs "chunk_elements") (get kvs "chunking_strategy")
                   (remaining_flags kvs)).

(** Whether neither strategy flag is set. *)
Definition chunking_unset (kvs : gmap string pyval) : bool :=
  negb (truthy (get kvs "chunk_elements")) && negb (truthy (get kvs "chunking_strategy")).


(** ** CliEmbeddingConfig *)

Module CliEmbeddingConfig.

(** [CliEmbeddingConfig.from_dict] on a [dict]. *)
Definition from_dict (kvs : gmap string pyval) : outcome :=
  let new_kvs := strip_prefix "embedding_" kvs in
  if (len new_kvs =? 0)%nat then Absent
  else if negb (truthy (get new_kvs "provider")) then Absent
  else Built new_kvs.

End CliEmbeddingConfig.

(** ** CliPermissionsConfig *)

Module CliPermissionsConfig.

(** The text of the [ValueError] raised for an incomplete triple. *)
Definition incomplete_message : string :=
  "Please provide either none or all of the following optional values:
--permissions-application-id
--permissions-client-cred
--permissions-tenant".

(** [CliPermissionsConfig.from_dict] on a [dict]. *)
Definition from_dict (kvs : gmap string pyval) : outcome :=
  let permissions_application_id := get kvs "permissions_application_id" in
  let permissions_client_cred := get kvs "permissions_client_cred" in
  let permissions_tenant := get kvs "permissions_tenant" in
  let permission_values :=
    [permissions_application_id; permissions_client_cred; permissions_tenant] in
  if existsb truthy permission_values && negb (forallb truthy permission_values)
  then Raised incomplete_message
  else
    let new_kvs := strip_prefix "permissions_" kvs in
    if (len new_kvs =? 0)%nat then Absent else Built new_kvs.

End CliPermissionsConfig.

(** [needle in hay] on strings. *)
Fixpoint contains (needle hay : string) : bool :=
  startswith needle hay
  || match hay with
     | EmptyString => false
     | String _ hay' => contains needle hay'
     end.

(** ** CliRetryStrategyConfig *)

Module CliRetryStrategyConfig.

(** Modelled from the spec: [fields(cls)] of the parent dataclass
    [RetryStrategyConfig], which is declared outside this file: an optional
    max-retry count and an optional max-retry duration, named as the flags
    [--max-retries] and [--max-retry-time] that populate them. *)
Definition fields : list string := ["max_retries"; "max_retry_time"].

(** [{field.name for field in fields(cls) if field.name in kvs}] *)
Definition field_names (kvs : gmap string pyval) : gset string :=
  list_to_set (filter (λ n, is_Some (kvs !! n)) fields).

(** [[kvs.get(n) for n in field_names if kvs.get(n)]] *)
Definition field_values (kvs : gmap string pyval) : list pyval :=
  omap (λ n, if truthy (get kvs n) then Some (get kvs n) else None)
       (elements (field_names kvs)).

(** [CliRetryStrategyConfig.from_dict] on a [dict]. *)
Definition from_dict (kvs : gmap string pyval) : outcome :=
  if (length (field_values kvs) =? 0)%nat then Absent else Built kvs.

End CliRetryStrategyConfig.

(** ** CliMixin: registering options on a command *)

Module CliMixin.

(** A [click.Parameter]: its name and its flag spellings [opts]. *)
Record click_Parameter : Type := { param_name : string; opts : list string }.

(** A [click.Command]: its name and its parameter list [params]. *)
Record Command : Type := { name : string; params : list click_Parameter }.

(** How a call ended: normally, or with a [ValueError]. *)
Inductive completion : Type :=
  | Returned
  | ValueError (msg : string).

(** The state the two loops mutate: the local list [existing_opts] and the
    command's own [cmd.params]. *)
Record loop_state : Type :=
  { existing_opts : list string; cmd_params : list click_Parameter }.

Definition duplicate_message (opt cmd_name : string) : string :=
  opt +:+ " is already defined on the command " +:+ cmd_name.

(** The inner loop [for opt in param.opts]. *)
Fixpoint add_opts (cmd_name : string) (param : click_Parameter) (os : list string)
    (st : loop_state) : loop_state * completion :=
  match os with
  | [] => (st, Returned)
  | opt :: os' =>
      if bool_decide (opt ∈ existing_opts st)
      then (st, ValueError (duplicate_message opt cmd_name))
      else add_opts cmd_name param os'
             {| existing_opts := existing_opts st ++ [opt];
                cmd_params := cmd_params st ++ [param] |}
  end.

(** The outer loop [for param in params]. *)
Fixpoint add_each (cmd_name : string) (ps : list click_Parameter) (st : loop_state)
    : loop_state * completion :=
  match ps with
  | [] => (st, Returned)
  | param :: ps' =>
      match add_opts cmd_name param (opts param) st with
      | (st', Returned) => add_each cmd_name ps' st'
      | (st', ValueError msg) => (st', ValueError msg)
      end
  end.

(** [CliMixin.add_params(cmd, params)]: the command as the call leaves it
    and how the call ended. *)
Definition add_params (cmd : Command) (ps : list click_Parameter) : Command * completion :=
  let existing := flat_map opts (params cmd) in
  let '(st, c) := add_each (name cmd) ps
                    {| existing_opts := existing; cmd_params := params cmd |} in
  ({| name := name cmd; params := cmd_params st |}, c).

End CliMixin.

(** ** FileOrJson *)

Module FileOrJson.

(** The value handed to [convert]: a [str], or a path-like object (which
    [os.path] accepts, and which is not an instance of [str]). *)
Inductive cli_value : Type :=
  | StrValue (s : string)
  | PathLikeValue (p : string).

(** [os.fspath(value)] and [str.format(value=value)]. *)
Definition fspath (value : cli_value) : string :=
  match value with StrValue s => s | PathLikeValue p => p end.

(** What [convert] asks of the world, in the order it asks. *)
Inductive event : Type :=
  | IsFile (path : string)
  | JsonLoads (text : string).

(** How [convert] ends: with a value, or in [self.fail(msg)]. *)
Inductive result : Type :=
  | Converted (v : pyval)
  | InvalidValue (msg : string).

(** A computation that logs the calls it makes. *)
Definition traced (A : Type) : Type := list event * A.

Definition ret {A} (a : A) : traced A := ([], a).

Definition bind {A B} (m : traced A) (f : A → traced B) : traced B :=
  let '(t1, a) := m in let '(t2, b) := f a in ((t1 ++ t2)%list, b).

Notation "'let*' x := m 'in' f" := (bind m (λ x, f))
  (at level 10, x name, m at level 100, f at level 200).

Definition fail_message (value : cli_value) : string :=
  fspath value +:+ " is not a valid json string nor an existing filepath.".

Section Convert.

(** The file system and the JSON decoder the parser runs against. *)
Variable expanduser : string → string.
Variable abspath : string → string.
Variable isfile : string → bool.
Variable resolve : string → string.
(** [json.loads]: [None] stands for [json.JSONDecodeError]. *)
Variable json_loads : string → option pyval.

Definition call_isfile (path : string) : traced bool :=
  ([IsFile path], isfile path).

Definition call_json_loads (text : string) : traced (option pyval) :=
  ([JsonLoads text], json_loads text).

(** [FileOrJson.convert], for a parser built with [allow_raw_str]. *)
Definition convert (allow_raw_str : bool) (value : cli_value) : traced result :=
  let full_path := abspath (expanduser (fspath value)) in
  let* is_file := call_isfile full_path in
  if (is_file : bool) then ret (Converted (PyStr (resolve full_path)))
  else
    match value with
    | StrValue s =>
        let* parsed := call_json_loads s in
        match parsed with
        | Some v => ret (Converted v)
        | None =>
            if allow_raw_str then ret (Converted (PyStr s))
            else ret (InvalidValue (fail_message value))
        end
    | PathLikeValue _ => ret (InvalidValue (fail_message value))
    end.

End Convert.

(** Whether a run attempted to parse JSON. *)
Definition attempted_json (t : list event) : bool :=
  existsb (λ e, match e with JsonLoads _ => true | IsFile _ => false end) t.

End FileOrJson.

(** ** DelimitedString *)

Module DelimitedString.

Local Open Scope list_scope.

(** A Python [str] as the list of its characters. *)
Abbreviation str := (list ascii).

(** [c.isspace()] for the characters [str.strip()] removes, on the code
    points below 256: tab to carriage return, the four separators
    0x1c to 0x1f, the space, NEL and the no-break space. *)
Definition isspace (c : ascii) : bool :=
  let n := nat_of_ascii c in
  (((9 <=? n) && (n <=? 13)) || ((28 <=? n) && (n <=? 32))
   || (n =? 133) || (n =? 160))%nat.

(** [s.lstrip()], [s.rstrip()] and [s.strip()]. *)
Fixpoint lstrip (s : str) : str :=
  match s with
  | [] => []
  | c :: s' => if isspace c then lstrip s' else s
  end.

Definition rstrip (s : str) : str := rev (lstrip (rev s)).

Definition strip (s : str) : str := rstrip (lstrip s).

(** [s.startswith(p)] on character lists. *)
Fixpoint is_prefix (p s : str) : bool :=
  match p, s with
  | [], _ => true
  | _ :: _, [] => false
  | a :: p', b :: s' => Ascii.eqb a b && is_prefix p' s'
  end.

(** The scan behind [s.split(sep)] for a non-empty [sep]: [cur] is the
    piece being read; at an occurrence of [sep] the piece is closed and the
    next [length sep - 1] characters, the rest of that occurrence, are
    passed over ([skip] counts them down). *)
Fixpoint split_scan (sep : str) (skip : nat) (cur : str) (s : str) : list str :=
  match s with
  | [] => [cur]
  | c :: s' =>
      match skip with
      | S skip' => split_scan sep skip' cur s'
      | O =>
          if is_prefix sep s
          then cur :: split_scan sep (length sep - 1) [] s'
          else split_scan sep 0 (cur ++ [c]) s'
      end
  end.

(** [s.split(sep)]; [None] is the [ValueError] of an empty separator. *)
Definition split (sep : str) (s : str) : option (list str) :=
  match sep with
  | [] => None
  | _ :: _ => Some (split_scan sep 0 [] s)
  end.

(** [sep.join(pieces)] *)
Fixpoint join (sep : str) (pieces : list str) : str :=
  match pieces with
  | [] => []
  | [p] => p
  | p :: ps => p ++ sep ++ join sep ps
  end.

(** The value handed to [convert]: a list (of strings, on which [str(v)] is
    the identity) or a string. *)
Inductive cli_value : Type :=
  | ListValue (items : list str)
  | StrValue (s : str).

(** How [convert] ends: with the list, in [self.fail] on an element outside
    the choices, or in the [ValueError] of [split]. *)
Inductive result : Type :=
  | Converted (split : list str)
  | InvalidValue (element : str) (choices : list str)
  | EmptySeparator.

(** The loop [for s in split: if s not in self.choices: self.fail(...)]. *)
Fixpoint check_choices (choices : list str) (pieces all : list str) : result :=
  match pieces with
  | [] => Converted all
  | s :: rest =>
      if bool_decide (s ∈ choices) then check_choices choices rest all
      else InvalidValue s choices
  end.

(** [DelimitedString.convert], for a parser built with [delimiter] and
    [choices] (the empty list when none are configured). *)
Definition convert (delimiter : str) (choices : list str) (value : cli_value) : result :=
  let split_result :=
    match value with
    | ListValue items => Some (map strip items)
    | StrValue s => option_map (map strip) (split delimiter s)
    end in
  match split_result with
  | None => EmptySeparator
  | Some pieces =>
      if (length choices =? 0)%nat then Converted pieces
      else check_choices choices pieces pieces
  end.

End DelimitedString.

(** ** Concrete flag mappings used in the examples *)

(** Only a tuning flag: [{"chunk_max_characters": 500}]. *)
Definition tuning_only_flags : gmap string pyval :=
  {[ "chunk_max_characters" := PyInt 500 ]}.

(** The legacy flag with a tuning flag:
    [{"chunk_elements": True, "chunk_max_characters": 500}]. *)
Definition legacy_flags : gmap string pyval :=
  <["chunk_elements" := PyBool true]> tuning_only_flags.

(** Both strategy flags:
    [{"chunk_elements": True, "chunking_strategy": "basic", "chunk_overlap": 0}]. *)
Definition both_flags : gmap string pyval :=
  <["chunk_elements" := PyBool true]>
    (<["chunking_strategy" := PyStr "basic"]> {[ "chunk_overlap" := PyInt 0 ]}).

(** A mapping whose key [chunk_chunking_strategy] loses its prefix to become
    [chunking_strategy]:
    [{"chunking_strategy": "basic", "chunk_chunking_strategy": "by_title"}]. *)
Definition colliding_flags : gmap string pyval :=
  <["chunking_strategy" := PyStr "basic"]>
    {[ "chunk_chunking_strategy" := PyStr "by_title" ]}.

(** An API key without a provider: [{"embedding_api_key": "secret"}]. *)
Definition api_key_only_flags : gmap string pyval :=
  {[ "embedding_api_key" := PyStr "secret" ]}.

(** A provider and an API key, next to a flag of another concern:
    [{"embedding_provider": "langchain-openai", "embedding_api_key": "secret",
      "strategy": "auto"}]. *)
Definition provider_flags : gmap string pyval :=
  <["embedding_provider" := PyStr "langchain-openai"]>
    (<["embedding_api_key" := PyStr "secret"]> {[ "strategy" := PyStr "auto" ]}).

(** Only the tenant of the permissions triple:
    [{"permissions_tenant": "contoso", "strategy": "auto"}]. *)
Definition tenant_only_flags : gmap string pyval :=
  <["permissions_tenant" := PyStr "contoso"]> {[ "strategy" := PyStr "auto" ]}.

(** The whole permissions triple. *)
Definition full_permissions_flags : gmap string pyval :=
  <["permissions_application_id" := PyStr "app"]>
    (<["permissions_client_cred" := PyStr "cred"]>
       (<["permissions_tenant" := PyStr "contoso"]> ∅)).

(** No permissions flag at all: [{"strategy": "auto"}]. *)
Definition no_permissions_flags : gmap string pyval :=
  {[ "strategy" := PyStr "auto" ]}.

(** [--max-retries 0]: [{"max_retries": 0}]. *)
Definition zero_retries_flags : gmap string pyval :=
  {[ "max_retries" := PyInt 0 ]}.

(** [--max-retry-time 0.0]: [{"max_retry_time": 0.0}]. *)
Definition zero_retry_time_flags : gmap string pyval :=
  {[ "max_retry_time" := PyFloat (S754_zero false) ]}.

(** ** Vocabulary for option registration *)

(** The flag spellings a list of options brings, in registration order. *)
Definition spellings (ps : list CliMixin.click_Parameter) : list string :=
  flat_map CliMixin.opts ps.

(** The spellings [os] are fresh for [seen]: pairwise distinct and none of
    them in [seen]. *)
Definition fresh (seen os : list string) : Prop :=
  NoDup os ∧ ∀ o, o ∈ os → o ∉ seen.

(** The loop state after the spellings [os] and the entries [ps] were
    appended. *)
Definition extend (st : CliMixin.loop_state) (os : list string)
    (ps : list CliMixin.click_Parameter) : CliMixin.loop_state :=
  {| CliMixin.existing_opts := CliMixin.existing_opts st ++ os;
     CliMixin.cmd_params := CliMixin.cmd_params st ++ ps |}.

(** What a successful run appends to [cmd.params]: each option once per
    spelling it has. *)
Definition appended (ps : list CliMixin.click_Parameter) : list CliMixin.click_Parameter :=
  flat_map (λ p, replicate (length (CliMixin.opts p)) p) ps.

(** [click.Option(["-v", "--verbose"], is_flag=True, default=False)] *)
Definition verbose_option : CliMixin.click_Parameter :=
  {| CliMixin.param_name := "verbose"; CliMixin.opts := ["-v"; "--verbose"] |}.

(** [click.Option(["--reprocess"], ...)] *)
Definition reprocess_option : CliMixin.click_Parameter :=
  {| CliMixin.param_name := "reprocess"; CliMixin.opts := ["--reprocess"] |}.

(** [click.Option(["--recursive"], ...)] *)
Definition recursive_option : CliMixin.click_Parameter :=
  {| CliMixin.param_name := "recursive"; CliMixin.opts := ["--recursive"] |}.

(** A command with one option registered. *)
Definition ingest_cmd : CliMixin.Command :=
  {| CliMixin.name := "ingest"; CliMixin.params := [recursive_option] |}.

(** ** A concrete world for the file-or-JSON parser *)

Module FileOrJsonExample.

(** A working directory [/work] holding the one file [creds.json]; no text
    decodes as JSON. *)
Definition expanduser (p : string) : string := p.
Definition abspath (p : string) : string := "/work/" +:+ p.
Definition isfile (p : string) : bool := String.eqb p "/work/creds.json".
Definition resolve (p : string) : string := p.
Definition json_loads (text : string) : option pyval := None.

End FileOrJsonExample.

(** ** Splitting at a single character *)



(** The characters of a string literal. *)
Definition chars (s : string) : list ascii := list_ascii_of_string s.

(** ** Dict: the JSON option type *)

Module Dict.

(** How [convert] ends: with the parsed value, or in [self.fail(msg)]. *)
Inductive result : Type :=
  | Converted (v : pyval)
  | InvalidValue (msg : string).

Definition fail_message (value : string) : string :=
  value +:+ " is not a valid json value.".

(** [Dict.convert] on a string, against the decoder [json_loads] ([None]
    stands for [json.JSONDecodeError]). *)
Definition convert (json_loads : string → option pyval) (value : string) : result :=
  match json_loads value with
  | Some v => Converted v
  | None => InvalidValue (fail_message value)
  end.

End Dict.

(** ** The option tables of the configuration classes *)

Module CliOptions.

Import CliMixin.

(** [click.Option(decls, ...)] as far as registration reads it: the flag
    spellings [decls], under the name click derives from them. *)
Definition click_Option (pname : string) (decls : list string) : click_Parameter :=
  {| param_name := pname; opts := decls |}.

(** [CliRetryStrategyConfig.get_cli_options()] *)
Definition retry_options : list click_Parameter :=
  [ click_Option "max_retries" ["--max-retries"];
    click_Option "max_retry_time" ["--max-retry-time"] ].

(** [CliProcessorConfig.get_cli_options()] *)
Definition processor_options : list click_Parameter :=
  [ click_Option "reprocess" ["--reprocess"];
    click_Option "output_dir" ["--output-dir"];
    click_Option "work_dir" ["--work-dir"];
    click_Option "num_processes" ["--num-processes"];
    click_Option "raise_on_error" ["--raise-on-error"];
    click_Option "verbose" ["-v"; "--verbose"] ].

(** [CliReadConfig.get_cli_options()] *)
Definition read_options : list click_Parameter :=
  [ click_Option "download_dir" ["--download-dir"];
    click_Option "re_download" ["--re-download"];
    click_Option "preserve_downloads" ["--preserve-downloads"];
    click_Option "download_only" ["--download-only"];
    click_Option "max_docs" ["--max-docs"] ].

(** [CliPartitionConfig.get_cli_options()] *)
Definition partition_options : list click_Parameter :=
  [ click_Option "pdf_infer_table_structure" ["--pdf-infer-table-structure"];
    click_Option "strategy" ["--strategy"];
    click_Option "ocr_languages" ["--ocr-languages"];
    click_Option "encoding" ["--encoding"];
    click_Option "skip_infer_table_types" ["--skip-infer-table-types"];
    click_Option "additional_partition_args" ["--additional-partition-args"];
    click_Option "fields_include" ["--fields-include"];
    click_Option "flatten_metadata" ["--flatten-metadata"];
    click_Option "metadata_include" ["--metadata-include"];
    click_Option "metadata_exclude" ["--metadata-exclude"];
    click_Option "partition_by_api" ["--partition-by-api"];
    click_Option "partition_endpoint" ["--partition-endpoint"];
    click_Option "api_key" ["--api-key"];
    click_Option "hi_res_model_name" ["--hi-res-model-name"] ].

(** [CliRecursiveConfig.get_cli_options()] *)
Definition recursive_options : list click_Parameter :=
  [ click_Option "recursive" ["--recursive"] ].

(** [CliFilesStorageConfig.get_cli_options()] *)
Definition files_storage_options : list click_Parameter :=
  [ click_Option "remote_url" ["--remote-url"];
    click_Option "uncompress" ["--uncompress"];
    click_Option "recursive" ["--recursive"];
    click_Option "file_glob" ["--file-glob"] ].

(** [CliEmbeddingConfig.get_cli_options()] *)
Definition embedding_options : list click_Parameter :=
  [ click_Option "embedding_provider" ["--embedding-provider"];
    click_Option "embedding_api_key" ["--embedding-api-key"];
    click_Option "embedding_model_name" ["--embedding-model-name"];
    click_Option "embedding_aws_access_key_id" ["--embedding-aws-access-key-id"];
    click_Option "embedding_aws_secret_access_key" ["--embedding-aws-secret-access-key"];
    click_Option "embedding_aws_region" ["--embedding-aws-region"] ].

(** [CliChunkingConfig.get_cli_options()] *)
Definition chunking_options : list click_Parameter :=
  [ click_Option "chunk_elements" ["--chunk-elements"];
    click_Option "chunking_strategy" ["--chunking-strategy"];
    click_Option "chunk_multipage_sections" ["--chunk-multipage-sections"];
    click_Option "chunk_combine_text_under_n_chars" ["--chunk-combine-text-under-n-chars"];
    click_Option "chunk_new_after_n_chars" ["--chunk-new-after-n-chars"];
    click_Option "chunk_max_characters" ["--chunk-max-characters"];
    click_Option "chunk_overlap" ["--chunk-overlap"];
    click_Option "chunk_overlap_all" ["--chunk-overlap-all"] ].

(** [CliPermissionsConfig.get_cli_options()] *)
Definition permissions_options : list click_Parameter :=
  [ click_Option "permissions_application_id" ["--permissions-application-id"];
    click_Option "permissions_client_cred" ["--permissions-client-cred"];
    click_Option "permissions_tenant" ["--permissions-tenant"] ].

(** [cls.add_cli_options(cmd)], for a class whose [get_cli_options()] is
    [options_to_add]. *)
Definition add_cli_options (options_to_add : list click_Parameter) (cmd : Command)
    : Command * completion :=
  add_params cmd options_to_add.

(** Calling [add_cli_options] for one class after the other on the same
    command, up to the first call that raises. *)
Fixpoint add_all (tables : list (list click_Parameter)) (cmd : Command)
    : Command * completion :=
  match tables with
  | [] => (cmd, Returned)
  | options_to_add :: rest =>
      match add_cli_options options_to_add cmd with
      | (cmd', Returned) => add_all rest cmd'
      | (cmd', ValueError msg) => (cmd', ValueError msg)
      end
  end.

End CliOptions.

(** A command with no option registered yet. *)
Definition bare_cmd : CliMixin.Command :=
  {| CliMixin.name := "ingest"; CliMixin.params := [] |}.


(** Two lists of spellings hold the same spellings. *)
Definition same_spellings (e1 e2 : list string) : Prop :=
  ∀ o, o ∈ e1 ↔ o ∈ e2.

(** All three permissions flags present and unset, as the command line
    leaves them when none is given. *)
Definition unset_permissions_flags : gmap string pyval :=
  <["permissions_application_id" := PyNone]>
    (<["permissions_client_cred" := PyNone]>
       (<["permissions_tenant" := PyNone]> ∅)).

(** The option tables of the seven classes that configure one pipeline run. *)
Definition pipeline_tables : list (list CliMixin.click_Parameter) :=
  [ CliOptions.retry_options; CliOptions.processor_options; CliOptions.read_options;
    CliOptions.partition_options; CliOptions.chunking_options;
    CliOptions.embedding_options; CliOptions.permissions_options ].
(** ** Facts about the dictionary operations *)

Section DictFacts.

Implicit Types (d m : gmap string pyval) (p k : string).
Implicit Types (l : list (string * pyval)).

Lemma startswith_app p r : startswith p (p +:+ r) = true.
Proof.
  induction p as [|a p IH]; simpl; [done|].
  rewrite IH, andb_true_r. by apply Ascii.eqb_eq.
Qed.

Lemma str_drop_app p r : str_drop (String.length p) (p +:+ r) = r.
Proof. induction p as [|a p IH]; simpl; auto. Qed.

Lemma startswith_split p k :
  startswith p k = true → p +:+ str_drop (String.length p) k = k.
Proof.
  revert k. induction p as [|a p IH]; intros k; simpl; [done|].
  destruct k as [|b k]; [done|].
  intros [Hab Hp]%andb_true_iff. apply Ascii.eqb_eq in Hab as ->.
  change (String b (p +:+ str_drop (String.length p) k) = String b k).
  f_equal. by apply IH.
Qed.

Lemma startswith_iff p k :
  startswith p k = true ↔ ∃ r, k = p +:+ r.
Proof.
  split.
  - intros H. exists (str_drop (String.length p) k). by rewrite startswith_split.
  - intros [r ->]. apply startswith_app.
Qed.

Lemma get_lookup d k v : d !! k = Some v → get d k = v.
Proof. unfold get. by intros ->. Qed.

Lemma get_absent d k : d !! k = None → get d k = PyNone.
Proof. unfold get. by intros ->. Qed.

(** [dict(pairs)] started from a dictionary [m0] is the dictionary of the
    pairs laid over [m0]. *)
Lemma fold_insert_union l m0 :
  fold_left (λ m kv, <[kv.1 := kv.2]> m) l m0 = dict_of_pairs l ∪ m0.
Proof.
  unfold dict_of_pairs. induction l as [|[k v] l IH] using rev_ind; simpl.
  - by rewrite (left_id_L ∅ (∪)).
  - rewrite !fold_left_app. simpl. rewrite IH. apply insert_union_l.
Qed.

Lemma dict_of_pairs_cons k v l :
  dict_of_pairs ((k, v) :: l) = dict_of_pairs l ∪ {[k := v]}.
Proof.
  unfold dict_of_pairs at 1. simpl. rewrite fold_insert_union.
  by rewrite insert_empty.
Qed.

Lemma dict_of_pairs_snoc l k v :
  dict_of_pairs (l ++ [(k, v)]) = <[k := v]> (dict_of_pairs l).
Proof. unfold dict_of_pairs. by rewrite fold_left_app. Qed.

(** Later pairs win, so [dict(pairs)] is stdpp's (first pair wins)
    [list_to_map] of the reversed list. *)
Lemma dict_of_pairs_reverse l :
  dict_of_pairs l = list_to_map (reverse l).
Proof.
  induction l as [|[k v] l IH] using rev_ind; [done|].
  by rewrite dict_of_pairs_snoc, reverse_snoc, list_to_map_cons, IH.
Qed.

Lemma dict_of_pairs_lookup l k v :
  NoDup (l.*1) → dict_of_pairs l !! k = Some v ↔ (k, v) ∈ l.
Proof.
  intros Hnd. rewrite dict_of_pairs_reverse, <-elem_of_list_to_map, elem_of_reverse; [done|].
  by rewrite fmap_reverse, reverse_Permutation.
Qed.

Lemma elem_of_stripped_items p d k v :
  (k, v) ∈ stripped_items p d ↔ d !! (p +:+ k) = Some v.
Proof.
  unfold stripped_items. rewrite list_elem_of_omap. split.
  - intros [[k0 v0] [Hin Hsome]]. simpl in Hsome.
    destruct (startswith p k0) eqn:Hp; [|done].
    injection Hsome as <- <-. rewrite startswith_split by done.
    by apply elem_of_map_to_list.
  - intros Hl. exists (p +:+ k, v). split; [by apply elem_of_map_to_list|].
    simpl. by rewrite startswith_app, str_drop_app.
Qed.

Lemma stripped_items_NoDup p d : NoDup ((stripped_items p d).*1).
Proof.
  unfold stripped_items.
  pose proof (NoDup_fst_map_to_list d) as Hnd.
  induction (map_to_list d) as [|[k0 v0] l IH]; simpl; [constructor|].
  inversion Hnd as [|? ? Hnotin Hnd']; subst.
  destruct (startswith p k0) eqn:Hp; simpl; [|by apply IH].
  constructor; [|by apply IH].
  intros Hin. apply Hnotin.
  apply list_elem_of_fmap in Hin as [[k' v'] [Hk Hin]]. simpl in Hk.
  apply list_elem_of_omap in Hin as [[k1 v1] [Hin1 Hsome]]. simpl in Hsome.
  destruct (startswith p k1) eqn:Hp1; [|done].
  injection Hsome as <- <-.
  apply list_elem_of_fmap. exists (k1, v1). split; [|done]. simpl.
  by rewrite <-(startswith_split p k0), <-(startswith_split p k1), Hk.
Qed.

(** The comprehension maps the stripped key [k] to the value of [p ++ k]. *)
Lemma strip_prefix_lookup p d k :
  strip_prefix p d !! k = d !! (p +:+ k).
Proof.
  apply option_eq. intros v. unfold strip_prefix.
  rewrite dict_of_pairs_lookup by apply stripped_items_NoDup.
  apply elem_of_stripped_items.
Qed.

Lemma len_zero_empty d : (len d =? 0)%nat = true ↔ d = ∅.
Proof. unfold len. rewrite Nat.eqb_eq. apply map_size_empty_iff. Qed.

End DictFacts.

(** ** Chunking reconciliation *)

Section ChunkingFacts.

Import CliChunkingConfig.

Implicit Types (kvs : gmap string pyval) (k : string).

Lemma from_dict_unfold kvs :
  from_dict kvs =
    if chunking_unset kvs then Absent
    else if (len (merged_fields kvs) =? 0)%nat then Absent
         else Built (merged_fields kvs).
Proof.
  unfold from_dict, chunking_unset, merged_fields, remaining_flags, pop, get.
  by rewrite lookup_delete_ne.
Qed.

Lemma chunk_prefix_not_strategy k : "chunk_" +:+ k ≠ "chunking_strategy".
Proof.
  intros H. assert (Hs : startswith "chunk_" ("chunk_" +:+ k) = true)
    by apply startswith_app.
  rewrite H in Hs. discriminate.
Qed.

(** What the merged field set holds under each name. *)
Lemma merged_fields_lookup kvs k :
  chunking_unset kvs = false →
  merged_fields kvs !! k =
    match remaining_flags kvs !! ("chunk_" +:+ k) with
    | Some v => Some v
    | None =>
        if decide (k = "chunking_strategy")
        then Some (if truthy (get kvs "chunking_strategy")
                   then get kvs "chunking_strategy" else PyStr "by_title")
        else None
    end.
Proof.
  unfold chunking_unset, merged_fields, iter_kv_pairs. intros Hset.
  fold (strip_prefix "chunk_" (remaining_flags kvs)).
  assert (Hstrip := strip_prefix_lookup "chunk_" (remaining_flags kvs) k).
  unfold strip_prefix in Hstrip.
  destruct (truthy (get kvs "chunking_strategy")) eqn:Hcs;
    [|destruct (truthy (get kvs "chunk_elements")) eqn:Hce; [|done]].
  all: simpl; rewrite dict_of_pairs_cons, lookup_union, Hstrip.
  all: destruct (remaining_flags kvs !! ("chunk_" +:+ k)) as [v|]; simpl.
  all: rewrite ?(left_id_L None (∪)); rewrite ?lookup_singleton.
  all: try (by destruct ({[ "chunking_strategy" := _ ]} !! k)).
  all: by repeat case_decide.
Qed.

Lemma merged_fields_has_strategy kvs :
  chunking_unset kvs = false → is_Some (merged_fields kvs !! "chunking_strategy").
Proof.
  intros Hset. rewrite merged_fields_lookup by done.
  destruct (remaining_flags kvs !! _); [by eexists|].
  by rewrite decide_True by done.
Qed.

Lemma merged_fields_nonempty kvs :
  chunking_unset kvs = false → (len (merged_fields kvs) =? 0)%nat = false.
Proof.
  intros Hset. apply not_true_iff_false. rewrite len_zero_empty. intros Hemp.
  destruct (merged_fields_has_strategy kvs Hset) as [v Hv].
  by rewrite Hemp, lookup_empty in Hv.
Qed.

Lemma from_dict_set kvs :
  chunking_unset kvs = false → from_dict kvs = Built (merged_fields kvs).
Proof.
  intros Hset. by rewrite from_dict_unfold, Hset, merged_fields_nonempty.
Qed.

End ChunkingFacts.

Section ChunkingClaims.

Import CliChunkingConfig.

Implicit Types (kvs : gmap string pyval) (k : string).

Lemma chunking_unset_true kvs :
  chunking_unset kvs = true ↔
  truthy (get kvs "chunk_elements") = false ∧ truthy (get kvs "chunking_strategy") = false.
Proof.
  unfold chunking_unset. rewrite andb_true_iff, !negb_true_iff. tauto.
Qed.

Lemma chunking_unset_false kvs :
  chunking_unset kvs = false ↔
  truthy (get kvs "chunk_elements") = true ∨ truthy (get kvs "chunking_strategy") = true.
Proof.
  unfold chunking_unset. rewrite andb_false_iff, !negb_false_iff. tauto.
Qed.

(** C1: when neither [chunk_elements] nor [chunking_strategy] is set
    (absent or falsy), [from_dict] returns [None], whatever other flags,
    [chunk_]-prefixed tuning flags included, the mapping holds. *)
Theorem chunking_absent_when_unset kvs :
  truthy (get kvs "chunk_elements") = false →
  truthy (get kvs "chunking_strategy") = false →
  from_dict kvs = Absent.
Proof.
  intros Hce Hcs. rewrite from_dict_unfold.
  by rewrite (proj2 (chunking_unset_true kvs)).
Qed.

Lemma chunking_absent_when_unset_witness :
  tuning_only_flags !! "chunk_max_characters" = Some (PyInt 500)
  ∧ from_dict tuning_only_flags = Absent.
Proof.
  split; [reflexivity|].
  apply (chunking_absent_when_unset tuning_only_flags); reflexivity.
Defined.

(** C2, as the code has it: when at least one of the two strategy flags is
    set and the mapping has no key [chunk_chunking_strategy], a record is
    built whose [chunking_strategy] is the flag's value when that flag is
    set and ["by_title"] when only [chunk_elements] is; every other field
    is the remaining flag that carries its name behind the [chunk_]
    prefix. *)
Theorem chunking_strategy_precedence kvs :
  kvs !! "chunk_chunking_strategy" = None →
  truthy (get kvs "chunk_elements") = true ∨ truthy (get kvs "chunking_strategy") = true →
  ∃ r, from_dict kvs = Built r
    ∧ (truthy (get kvs "chunking_strategy") = true →
         r !! "chunking_strategy" = Some (get kvs "chunking_strategy"))
    ∧ (truthy (get kvs "chunking_strategy") = false →
         r !! "chunking_strategy" = Some (PyStr "by_title"))
    ∧ (∀ k, k ≠ "chunking_strategy" →
         r !! k = remaining_flags kvs !! ("chunk_" +:+ k)).
Proof.
  intros Hfree Hset%chunking_unset_false.
  exists (merged_fields kvs). split; [by apply from_dict_set|].
  assert (Hrem : remaining_flags kvs !! ("chunk_" +:+ "chunking_strategy") = None).
  { unfold remaining_flags. rewrite !lookup_delete_ne by done. exact Hfree. }
  repeat split.
  - intros Hcs. rewrite merged_fields_lookup, Hrem by done. by rewrite decide_True, Hcs by done.
  - intros Hcs. rewrite merged_fields_lookup, Hrem by done. by rewrite decide_True, Hcs by done.
  - intros k Hk. rewrite merged_fields_lookup by done.
    destruct (remaining_flags kvs !! ("chunk_" +:+ k)); [done|]. by rewrite decide_False by done.
Qed.

Lemma chunking_strategy_precedence_witness :
  ∃ r, from_dict both_flags = Built r
    ∧ r !! "chunking_strategy" = Some (PyStr "basic")
    ∧ r !! "overlap" = Some (PyInt 0)
    ∧ r !! "elements" = None.
Proof.
  destruct (chunking_strategy_precedence both_flags) as (r & Hr & Hcs & _ & Hrest);
    [reflexivity | right; reflexivity |].
  exists r. split; [exact Hr|]. split; [apply Hcs; reflexivity|].
  split; rewrite Hrest by done; reflexivity.
Defined.

(** C2 as stated fails: the strategy flag is set to ["basic"], yet the
    record is built with the strategy ["by_title"] that the key
    [chunk_chunking_strategy] carries. *)
Lemma chunking_strategy_flag_overridden :
  truthy (get colliding_flags "chunking_strategy") = true
  ∧ get colliding_flags "chunking_strategy" = PyStr "basic"
  ∧ ∃ r, from_dict colliding_flags = Built r
      ∧ r !! "chunking_strategy" = Some (PyStr "by_title")
      ∧ r !! "chunking_strategy" ≠ Some (get colliding_flags "chunking_strategy").
Proof.
  split; [reflexivity|]. split; [reflexivity|].
  eexists. split; [vm_compute; reflexivity|].
  split; [vm_compute; reflexivity|]. vm_compute. discriminate.
Qed.

(** C10: past the early return the merged field set holds a
    [chunking_strategy] entry, so it is not empty and the record is built;
    hence [from_dict] returns [None] exactly when both flags are unset. *)
Theorem chunking_defensive_branch_unreachable kvs :
  (truthy (get kvs "chunk_elements") = true ∨ truthy (get kvs "chunking_strategy") = true →
     is_Some (merged_fields kvs !! "chunking_strategy")
     ∧ len (merged_fields kvs) ≠ 0
     ∧ from_dict kvs = Built (merged_fields kvs))
  ∧ (from_dict kvs = Absent ↔
       truthy (get kvs "chunk_elements") = false
       ∧ truthy (get kvs "chunking_strategy") = false).
Proof.
  split.
  - intros Hset%chunking_unset_false. split; [by apply merged_fields_has_strategy|].
    split; [|by apply from_dict_set].
    apply Nat.eqb_neq. by apply merged_fields_nonempty.
  - rewrite <-chunking_unset_true. split.
    + intros Habs. destruct (chunking_unset kvs) eqn:Hu; [done|].
      by rewrite from_dict_set in Habs.
    + intros Hu. by rewrite from_dict_unfold, Hu.
Qed.

Lemma chunking_defensive_branch_unreachable_witness :
  is_Some (merged_fields legacy_flags !! "chunking_strategy")
  ∧ len (merged_fields legacy_flags) ≠ 0
  ∧ from_dict legacy_flags = Built (merged_fields legacy_flags).
Proof.
  apply (proj1 (chunking_defensive_branch_unreachable legacy_flags)).
  left. reflexivity.
Defined.

End ChunkingClaims.

(** ** Reconciliation by prefix: embedding and permissions *)

Section PrefixFacts.

Implicit Types (kvs : gmap string pyval) (p k : string).

Lemma truthy_get_lookup kvs k :
  truthy (get kvs k) = true → kvs !! k = Some (get kvs k).
Proof. unfold get. by destruct (kvs !! k). Qed.

Lemma get_strip_prefix p kvs k :
  get (strip_prefix p kvs) k = get kvs (p +:+ k).
Proof. unfold get. by rewrite strip_prefix_lookup. Qed.

Lemma strip_prefix_nonempty p kvs k :
  is_Some (kvs !! (p +:+ k)) → (len (strip_prefix p kvs) =? 0)%nat = false.
Proof.
  intros [v Hv]. apply not_true_iff_false. rewrite len_zero_empty. intros Hemp.
  by rewrite <-strip_prefix_lookup, Hemp, lookup_empty in Hv.
Qed.

Lemma strip_prefix_empty p kvs :
  (∀ k, startswith p k = true → kvs !! k = None) → strip_prefix p kvs = ∅.
Proof.
  intros Hno. apply map_eq. intros k.
  rewrite strip_prefix_lookup, lookup_empty. apply Hno, startswith_app.
Qed.

End PrefixFacts.

Section EmbeddingClaims.

Import CliEmbeddingConfig.

Implicit Types (kvs : gmap string pyval) (k : string).

(** C6: [from_dict] builds a record exactly when [embedding_provider] is
    set; without it the result is [None] whatever else the mapping holds;
    with it the record's fields are the [embedding_]-prefixed flags under
    their stripped names, and a field no flag supplies keeps its default. *)
Theorem embedding_present_iff_provider kvs (defaults : string → pyval) :
  (truthy (get kvs "embedding_provider") = true →
     from_dict kvs = Built (strip_prefix "embedding_" kvs)
     ∧ (∀ k, strip_prefix "embedding_" kvs !! k = kvs !! ("embedding_" +:+ k))
     ∧ (∀ k, kvs !! ("embedding_" +:+ k) = None →
          record_field defaults (strip_prefix "embedding_" kvs) k = defaults k))
  ∧ (truthy (get kvs "embedding_provider") = false → from_dict kvs = Absent)
  ∧ ((∃ r, from_dict kvs = Built r) ↔ truthy (get kvs "embedding_provider") = true).
Proof.
  assert (Hget : get (strip_prefix "embedding_" kvs) "provider"
                 = get kvs "embedding_provider") by apply get_strip_prefix.
  assert (Hyes : truthy (get kvs "embedding_provider") = true →
                 from_dict kvs = Built (strip_prefix "embedding_" kvs)).
  { intros Hp. unfold from_dict. rewrite Hget, Hp. simpl.
    rewrite (strip_prefix_nonempty "embedding_" kvs "provider"); [done|].
    exists (get kvs "embedding_provider"). by apply truthy_get_lookup. }
  assert (Hno : truthy (get kvs "embedding_provider") = false → from_dict kvs = Absent).
  { intros Hp. unfold from_dict. rewrite Hget, Hp. simpl. by case_match. }
  split; [|split; [exact Hno|]].
  - intros Hp. split; [by apply Hyes|]. split.
    + intros k. apply strip_prefix_lookup.
    + intros k Hk. unfold record_field. by rewrite strip_prefix_lookup, Hk.
  - split.
    + intros [r Hr]. destruct (truthy (get kvs "embedding_provider")) eqn:Hp; [done|].
      by rewrite Hno in Hr.
    + intros Hp. eexists. by apply Hyes.
Qed.

Lemma embedding_present_iff_provider_witness :
  (∃ r, from_dict provider_flags = Built r
      ∧ r !! "provider" = Some (PyStr "langchain-openai")
      ∧ r !! "api_key" = Some (PyStr "secret")
      ∧ r !! "strategy" = None
      ∧ record_field (λ _, PyNone) r "model_name" = PyNone)
  ∧ from_dict api_key_only_flags = Absent.
Proof.
  split.
  - destruct (embedding_present_iff_provider provider_flags (λ _, PyNone))
      as [Hyes _].
    destruct Hyes as (Hr & Hlook & Hdef); [reflexivity|].
    eexists. split; [exact Hr|].
    split; [rewrite Hlook; reflexivity|].
    split; [rewrite Hlook; reflexivity|].
    split; [rewrite Hlook; reflexivity|].
    apply Hdef. reflexivity.
  - apply (embedding_present_iff_provider api_key_only_flags (λ _, PyNone)).
    reflexivity.
Defined.

End EmbeddingClaims.

Section PermissionsClaims.

Import CliPermissionsConfig.

Implicit Types (kvs : gmap string pyval) (k : string).

(** C3: with one or two of the three permissions flags set the call raises
    a [ValueError] whose message names the three flags; with all three set
    it builds the record from the [permissions_]-prefixed flags; with no
    [permissions_]-prefixed key in the mapping it returns [None]. *)
Theorem permissions_all_or_none kvs :
  let a := truthy (get kvs "permissions_application_id") in
  let c := truthy (get kvs "permissions_client_cred") in
  let t := truthy (get kvs "permissions_tenant") in
  (a || c || t = true → a && c && t = false →
     from_dict kvs = Raised incomplete_message
     ∧ contains "--permissions-application-id" incomplete_message = true
     ∧ contains "--permissions-client-cred" incomplete_message = true
     ∧ contains "--permissions-tenant" incomplete_message = true)
  ∧ (a && c && t = true →
       ∃ r, from_dict kvs = Built r
         ∧ r !! "application_id" = Some (get kvs "permissions_application_id")
         ∧ r !! "client_cred" = Some (get kvs "permissions_client_cred")
         ∧ r !! "tenant" = Some (get kvs "permissions_tenant")
         ∧ ∀ k, r !! k = kvs !! ("permissions_" +:+ k))
  ∧ ((∀ k, startswith "permissions_" k = true → kvs !! k = None) →
       from_dict kvs = Absent).
Proof.
  intros a c t. split; [|split].
  - intros Hany Hall. split; [|by vm_compute].
    unfold from_dict. cbn [existsb forallb]. fold a c t.
    rewrite !orb_false_r, !andb_true_r, !orb_assoc, !andb_assoc, Hany, Hall.
    reflexivity.
  - intros Hall. apply andb_true_iff in Hall as [[Ha Hc]%andb_true_iff Ht].
    exists (strip_prefix "permissions_" kvs). split.
    + unfold from_dict. cbn [existsb forallb]. fold a c t.
      rewrite Ha, Hc, Ht. simpl.
      rewrite (strip_prefix_nonempty "permissions_" kvs "tenant"); [done|].
      exists (get kvs "permissions_tenant"). by apply truthy_get_lookup.
    + repeat split; try (intros k); rewrite strip_prefix_lookup; try done.
      all: by apply truthy_get_lookup.
  - intros Hno. unfold from_dict.
    rewrite !(get_absent kvs) by (by apply Hno). simpl.
    by rewrite strip_prefix_empty.
Qed.

Lemma permissions_all_or_none_witness :
  from_dict tenant_only_flags = Raised incomplete_message
  ∧ (∃ r, from_dict full_permissions_flags = Built r
        ∧ r !! "tenant" = Some (PyStr "contoso"))
  ∧ from_dict no_permissions_flags = Absent.
Proof.
  split; [|split].
  - apply (permissions_all_or_none tenant_only_flags); reflexivity.
  - destruct (permissions_all_or_none full_permissions_flags)
      as (_ & (r & Hr & _ & _ & Ht & _) & _); [reflexivity|].
    exists r. split; [exact Hr|]. rewrite Ht. reflexivity.
  - apply (permissions_all_or_none no_permissions_flags).
    intros k Hk. unfold no_permissions_flags.
    apply lookup_singleton_ne. intros <-. discriminate.
Defined.

End PermissionsClaims.

(** ** Retry-strategy reconciliation *)

Section RetryClaims.

Import CliRetryStrategyConfig.

Implicit Types (kvs : gmap string pyval) (n : string).

Lemma elem_of_field_names kvs n :
  n ∈ elements (field_names kvs) ↔ n ∈ fields ∧ is_Some (kvs !! n).
Proof.
  unfold field_names.
  by rewrite elem_of_elements, elem_of_list_to_set, list_elem_of_filter, (comm (∧)).
Qed.

Lemma elem_of_field_values kvs v :
  v ∈ field_values kvs ↔ ∃ n, n ∈ fields ∧ get kvs n = v ∧ truthy v = true.
Proof.
  unfold field_values. rewrite list_elem_of_omap. split.
  - intros (n & [Hn _]%elem_of_field_names & Hv).
    destruct (truthy (get kvs n)) eqn:Ht; [|done].
    injection Hv as <-. eauto.
  - intros (n & Hn & <- & Ht). exists n. rewrite Ht. split; [|done].
    apply elem_of_field_names. split; [done|].
    rewrite (truthy_get_lookup kvs n Ht). by eexists.
Qed.

(** What the code does: the record is built exactly when one of the two
    fields holds a truthy value. *)
Lemma retry_from_dict_truthy kvs :
  from_dict kvs =
    if truthy (get kvs "max_retries") || truthy (get kvs "max_retry_time")
    then Built kvs else Absent.
Proof.
  unfold from_dict.
  destruct (field_values kvs) as [|v vs] eqn:Hvs; simpl.
  - destruct (truthy (get kvs "max_retries")) eqn:H1; simpl.
    { assert (Hin : get kvs "max_retries" ∈ field_values kvs).
      { apply elem_of_field_values. exists "max_retries".
        repeat split; [|done]. unfold fields. set_solver. }
      rewrite Hvs in Hin. by apply elem_of_nil in Hin. }
    destruct (truthy (get kvs "max_retry_time")) eqn:H2; [|done].
    assert (Hin : get kvs "max_retry_time" ∈ field_values kvs).
    { apply elem_of_field_values. exists "max_retry_time".
      repeat split; [|done]. unfold fields. set_solver. }
    rewrite Hvs in Hin. by apply elem_of_nil in Hin.
  - assert (Hin : v ∈ field_values kvs) by (rewrite Hvs; left).
    apply elem_of_field_values in Hin as (n & Hn & <- & Ht).
    unfold fields in Hn.
    apply elem_of_cons in Hn as [->|Hn]; [by rewrite Ht|].
    apply elem_of_cons in Hn as [->|Hn]; [by rewrite Ht, orb_true_r|].
    by apply elem_of_nil in Hn.
Qed.

(** C7 fails on the code: a mapping that sets [max_retries] to the explicit
    value [0], or [max_retry_time] to [0.0], holds a populated field, yet
    [from_dict] returns [None] as if no field were set. *)
Theorem retry_explicit_zero_is_absent :
  (zero_retries_flags !! "max_retries" = Some (PyInt 0)
   ∧ from_dict zero_retries_flags = Absent)
  ∧ (zero_retry_time_flags !! "max_retry_time" = Some (PyFloat (S754_zero false))
     ∧ from_dict zero_retry_time_flags = Absent).
Proof.
  split; (split; [reflexivity|]); vm_compute; reflexivity.
Qed.

End RetryClaims.

(** ** Option registration *)

Section RegistrationFacts.

Import CliMixin.
Local Open Scope list_scope.

Implicit Types (st : loop_state) (os seen : list string).
Implicit Types (p : click_Parameter) (ps : list click_Parameter).

Lemma extend_nil st : extend st [] [] = st.
Proof. destruct st. unfold extend. simpl. by rewrite !app_nil_r. Qed.

Lemma extend_extend st os1 ps1 os2 ps2 :
  extend (extend st os1 ps1) os2 ps2 = extend st (os1 ++ os2) (ps1 ++ ps2).
Proof. unfold extend. simpl. by rewrite !app_assoc. Qed.

Lemma fresh_nil seen : fresh seen [].
Proof. split; [constructor|]. intros o Ho. by apply elem_of_nil in Ho. Qed.

Lemma fresh_cons seen o os :
  fresh seen (o :: os) ↔ (o ∉ seen) ∧ fresh (seen ++ [o]) os.
Proof.
  unfold fresh. rewrite NoDup_cons. split.
  - intros [[Ho Hnd] Hseen]. split; [apply Hseen; left|]. split; [done|].
    intros o' Ho' [Hin| ->%list_elem_of_singleton]%elem_of_app; [|done].
    by apply (Hseen o'); [right|].
  - intros [Ho [Hnd Hseen]]. split.
    + split; [|done]. intros Hin. apply (Hseen o Hin), elem_of_app. right. left.
    + intros o' [->|Hin]%elem_of_cons; [done|].
      intros Hs. apply (Hseen o' Hin), elem_of_app. by left.
Qed.

Lemma fresh_app seen os1 os2 :
  fresh seen (os1 ++ os2) ↔ fresh seen os1 ∧ fresh (seen ++ os1) os2.
Proof.
  revert seen. induction os1 as [|o os1 IH]; intros seen; simpl.
  - rewrite app_nil_r. pose proof (fresh_nil seen). tauto.
  - rewrite !fresh_cons, IH, <-app_assoc. simpl. tauto.
Qed.

(** A spelling that repeats a seen or an earlier one rules freshness out. *)
Lemma repeat_not_fresh seen pre o post :
  o ∈ seen ++ pre → ¬ fresh seen (pre ++ o :: post).
Proof.
  intros Hin [_ Hfr]%fresh_app. apply fresh_cons in Hfr as [Ho _]. done.
Qed.

(** The inner loop either runs through fresh spellings, appending the
    option once for each, or stops at the first repeated spelling. *)
Lemma add_opts_cases cmd_name p os st :
  (fresh (existing_opts st) os
   ∧ add_opts cmd_name p os st = (extend st os (replicate (length os) p), Returned))
  ∨ (∃ pre o post, os = pre ++ o :: post ∧ o ∈ existing_opts st ++ pre
     ∧ add_opts cmd_name p os st
       = (extend st pre (replicate (length pre) p),
          ValueError (duplicate_message o cmd_name))).
Proof.
  revert st. induction os as [|o os IH]; intros st; simpl.
  - left. split; [apply fresh_nil|]. by rewrite extend_nil.
  - case_bool_decide as Hin.
    + right. exists [], o, os. rewrite app_nil_r, extend_nil. done.
    + destruct (IH (extend st [o] [p])) as [[Hfr Hrun]|(pre & o' & post & -> & Ho' & Hrun)].
      * left. split; [by apply fresh_cons|].
        unfold extend in Hrun |- *. simpl in Hrun |- *.
        rewrite Hrun. by rewrite <-!app_assoc.
      * right. exists (o :: pre), o', post. split; [done|].
        simpl in Ho'. rewrite <-app_assoc in Ho'. split; [done|].
        unfold extend in Hrun |- *. simpl in Hrun |- *.
        rewrite Hrun. by rewrite <-!app_assoc.
Qed.

(** The same for the outer loop, over the spellings of all the options. *)
Lemma add_each_cases cmd_name ps st :
  (fresh (existing_opts st) (spellings ps)
   ∧ add_each cmd_name ps st = (extend st (spellings ps) (appended ps), Returned))
  ∨ (∃ pre o post st', spellings ps = pre ++ o :: post ∧ o ∈ existing_opts st ++ pre
     ∧ add_each cmd_name ps st = (st', ValueError (duplicate_message o cmd_name))).
Proof.
  revert st. induction ps as [|p ps IH]; intros st; simpl.
  - left. split; [apply fresh_nil|]. by rewrite extend_nil.
  - destruct (add_opts_cases cmd_name p (opts p) st)
      as [[Hfr Hrun]|(pre & o & post & Hos & Ho & Hrun)]; rewrite Hrun.
    + destruct (IH (extend st (opts p) (replicate (length (opts p)) p)))
        as [[Hfr' Hrun']|(pre & o & post & st' & Hsp & Ho & Hrun')]; rewrite Hrun'.
      * left. split; [by apply fresh_app|]. by rewrite extend_extend.
      * right. exists (opts p ++ pre), o, post, st'.
        rewrite Hsp, <-app_assoc. split; [done|]. split; [|done].
        simpl in Ho. by rewrite app_assoc.
    + right. exists pre, o, (post ++ spellings ps). eexists.
      rewrite Hos, <-app_assoc. done.
Qed.

(** [add_params] on fresh spellings: the call returns and [cmd.params] has
    grown by [appended ps]. *)
Lemma add_params_fresh cmd ps :
  fresh (spellings (params cmd)) (spellings ps) →
  add_params cmd ps
  = ({| name := name cmd; params := params cmd ++ appended ps |}, Returned).
Proof.
  intros Hfr. unfold add_params.
  destruct (add_each_cases (name cmd) ps
              {| existing_opts := flat_map opts (params cmd);
                 cmd_params := params cmd |})
    as [[_ Hrun]|(pre & o & post & st' & Hsp & Ho & _)].
  - by rewrite Hrun.
  - exfalso. rewrite Hsp in Hfr. by eapply repeat_not_fresh.
Qed.

(** [add_params] on spellings that are not fresh: the call raises, and the
    flag it names repeats a registered or an earlier spelling. *)
Lemma add_params_repeat cmd ps :
  ¬ fresh (spellings (params cmd)) (spellings ps) →
  ∃ cmd' o pre post,
    add_params cmd ps = (cmd', ValueError (duplicate_message o (name cmd)))
    ∧ spellings ps = pre ++ o :: post
    ∧ o ∈ spellings (params cmd) ++ pre.
Proof.
  intros Hnf. unfold add_params.
  destruct (add_each_cases (name cmd) ps
              {| existing_opts := flat_map opts (params cmd);
                 cmd_params := params cmd |})
    as [[Hfr _]|(pre & o & post & st' & Hsp & Ho & Hrun)]; [done|].
  rewrite Hrun. by eexists _, o, pre, post.
Qed.

End RegistrationFacts.

Section RegistrationClaims.

Import CliMixin.
Local Open Scope list_scope.

Implicit Types (cmd : Command) (p : click_Parameter) (ps : list click_Parameter).

(** C4: when a new option carries a spelling that is registered on the
    command already, or that an earlier option of the same list carries,
    [add_params] raises a [ValueError] naming the command and a flag that
    repeats a registered or an earlier spelling; when the new spellings are
    pairwise distinct and none is registered, the call returns. *)
Theorem add_params_duplicate_detection cmd ps :
  ((∃ ps1 p ps2 o, ps = ps1 ++ p :: ps2 ∧ o ∈ opts p
      ∧ (o ∈ spellings (params cmd) ∨ o ∈ spellings ps1)) →
     ∃ cmd' o pre post,
       add_params cmd ps = (cmd', ValueError (duplicate_message o (name cmd)))
       ∧ duplicate_message o (name cmd)
         = o +:+ " is already defined on the command " +:+ name cmd
       ∧ spellings ps = pre ++ o :: post
       ∧ o ∈ spellings (params cmd) ++ pre)
  ∧ (NoDup (spellings ps) → (∀ o, o ∈ spellings ps → o ∉ spellings (params cmd)) →
       (add_params cmd ps).2 = Returned).
Proof.
  split.
  - intros (ps1 & p & ps2 & o & -> & Ho & Hcol).
    destruct (add_params_repeat cmd (ps1 ++ p :: ps2))
      as (cmd' & o' & pre & post & Hrun & Hsp & Ho'); [|by eexists cmd', o', pre, post].
    apply list_elem_of_split in Ho as (os1 & os2 & Hos).
    unfold spellings at 2. rewrite flat_map_app. simpl. rewrite Hos, <-app_assoc.
    rewrite (app_assoc (flat_map opts ps1)).
    apply repeat_not_fresh. fold (spellings ps1).
    rewrite !elem_of_app. tauto.
  - intros Hnd Hnew. by rewrite add_params_fresh.
Qed.

Lemma add_params_duplicate_detection_witness :
  (∃ cmd', add_params ingest_cmd [reprocess_option; recursive_option]
           = (cmd', ValueError "--recursive is already defined on the command ingest"))
  ∧ (add_params ingest_cmd [reprocess_option]).2 = Returned.
Proof.
  split.
  - destruct (add_params_duplicate_detection ingest_cmd [reprocess_option; recursive_option])
      as [Hdup _].
    destruct Hdup as (cmd' & o & pre & post & Hrun & _ & _ & _).
    { exists [reprocess_option], recursive_option, [], "--recursive".
      split; [reflexivity|]. split; [left|left; left]. }
    exists (add_params ingest_cmd [reprocess_option; recursive_option]).1.
    reflexivity.
  - apply (add_params_duplicate_detection ingest_cmd [reprocess_option]).
    + apply NoDup_singleton.
    + intros o ->%list_elem_of_singleton [Heq|Hin%elem_of_nil]%elem_of_cons; done.
Defined.

(** C5 fails on the code: registering the single option [-v/--verbose] on
    a command leaves that option twice in [cmd.params], once for each of
    its two spellings, where the claim has it appended once. *)
Theorem add_params_appends_once_per_spelling :
  add_params ingest_cmd [verbose_option]
  = ({| name := "ingest";
        params := [recursive_option; verbose_option; verbose_option] |}, Returned).
Proof. vm_compute. reflexivity. Qed.

End RegistrationClaims.

(** ** The file-or-JSON parser *)

Section FileOrJsonClaims.

Import FileOrJson.

Variable expanduser abspath resolve : string → string.
Variable isfile : string → bool.
Variable json_loads : string → option pyval.

Local Abbreviation run := (convert expanduser abspath isfile resolve json_loads).

(** What [convert] does on a string, case by case. *)
Lemma convert_str allow_raw_str s :
  run allow_raw_str (StrValue s) =
    let full_path := abspath (expanduser s) in
    if isfile full_path
    then ([IsFile full_path], Converted (PyStr (resolve full_path)))
    else ([IsFile full_path; JsonLoads s],
          match json_loads s with
          | Some v => Converted v
          | None => if allow_raw_str then Converted (PyStr s)
                    else InvalidValue (fail_message (StrValue s))
          end).
Proof.
  unfold convert, bind, call_isfile, call_json_loads, ret. simpl.
  destruct (isfile _); [done|].
  destruct (json_loads s); [done|]. by destruct allow_raw_str.
Qed.

(** C8: a string that resolves to an existing file is answered with the
    resolved absolute path after the one file test, with no attempt to
    parse it as JSON; a run that does attempt JSON parsing, and so the
    raw-string fallback behind it, is a run on a string that is no file. *)
Theorem file_or_json_file_first allow_raw_str s :
  (isfile (abspath (expanduser s)) = true →
     run allow_raw_str (StrValue s)
     = ([IsFile (abspath (expanduser s))],
        Converted (PyStr (resolve (abspath (expanduser s)))))
     ∧ attempted_json (run allow_raw_str (StrValue s)).1 = false)
  ∧ (attempted_json (run allow_raw_str (StrValue s)).1 = true →
       isfile (abspath (expanduser s)) = false)
  ∧ (isfile (abspath (expanduser s)) = false → json_loads s = None →
       run allow_raw_str (StrValue s)
       = ([IsFile (abspath (expanduser s)); JsonLoads s],
          if allow_raw_str then Converted (PyStr s)
          else InvalidValue (fail_message (StrValue s)))).
Proof.
  rewrite convert_str. simpl.
  destruct (isfile (abspath (expanduser s))) eqn:Hfile.
  - split; [done|]. split; [|done]. simpl. done.
  - split; [done|]. split; [done|]. by intros _ ->.
Qed.

End FileOrJsonClaims.

Section FileOrJsonWitness.

Import FileOrJson FileOrJsonExample.

Lemma file_or_json_file_first_witness :
  convert expanduser abspath isfile resolve json_loads true (StrValue "creds.json")
  = ([IsFile "/work/creds.json"], Converted (PyStr "/work/creds.json"))
  ∧ convert expanduser abspath isfile resolve json_loads true (StrValue "{oops")
    = ([IsFile "/work/{oops"; JsonLoads "{oops"], Converted (PyStr "{oops")).
Proof.
  split.
  - apply (file_or_json_file_first expanduser abspath resolve isfile json_loads
             true "creds.json").
    reflexivity.
  - apply (file_or_json_file_first expanduser abspath resolve isfile json_loads
             true "{oops"); reflexivity.
Defined.

End FileOrJsonWitness.

(** ** The delimited-string parser *)

Section DelimitedStringFacts.

Import DelimitedString.
Local Open Scope list_scope.

Implicit Types (s p cur : str) (d c : ascii) (l : list str).

(** *** Trimming *)








(** *** Splitting at one character *)









End DelimitedStringFacts.

Section DelimitedStringClaims.

Import DelimitedString.
Local Open Scope list_scope.



(** The default delimiter on a flag value with blanks and an empty item. *)
Example convert_comma_separated :
  convert (chars ",") [] (StrValue (chars " a , b,,c "))
  = Converted [chars "a"; chars "b"; chars ""; chars "c"].
Proof. vm_compute. reflexivity. Qed.

End DelimitedStringClaims.

(** ** Further properties of the delimited-string parser *)

Section DelimitedStringSplit.

Import DelimitedString.
Local Open Scope list_scope.

Implicit Types (s p cur sep : str) (d c : ascii) (l : list str).

Lemma is_prefix_app sep s :
  is_prefix sep s = true → ∃ rest, s = sep ++ rest.
Proof.
  revert s. induction sep as [|a sep IH]; intros s; simpl.
  - intros _. by exists s.
  - destruct s as [|b s]; [done|].
    intros [Hab Hp]%andb_true_iff. apply Ascii.eqb_eq in Hab as ->.
    destruct (IH s Hp) as [rest ->]. by exists rest.
Qed.

(** Passing over the rest of an occurrence of the separator. *)
Lemma split_scan_skip sep u cur rest :
  split_scan sep (length u) cur (u ++ rest) = split_scan sep 0 cur rest.
Proof. induction u as [|a u IH]; simpl; [by destruct rest|done]. Qed.

Lemma split_scan_nonempty sep k cur s : split_scan sep k cur s ≠ [].
Proof.
  revert k cur. induction s as [|c s IH]; intros k cur; simpl; [done|].
  destruct k; [|apply IH]. destruct (is_prefix sep (c :: s)); [done|apply IH].
Qed.

Lemma join_cons sep p l :
  l ≠ [] → join sep (p :: l) = p ++ sep ++ join sep l.
Proof. by destruct l. Qed.

(** Joining what the scan produces gives back what it has read. *)
Lemma join_split_scan sep n s cur :
  sep ≠ [] → (length s ≤ n)%nat → join sep (split_scan sep 0 cur s) = cur ++ s.
Proof.
  intros Hsep. revert s cur. induction n as [|n IH]; intros s cur Hlen.
  - destruct s; [|simpl in Hlen; lia]. simpl. by rewrite app_nil_r.
  - destruct s as [|c s]; [simpl; by rewrite app_nil_r|].
    cbn [split_scan]. destruct (is_prefix sep (c :: s)) eqn:Hpre.
    + destruct (is_prefix_app _ _ Hpre) as [rest Hrest].
      destruct sep as [|a sep']; [done|]. simpl in Hrest. injection Hrest as -> ->.
      cbn [length]. rewrite Nat.sub_1_r. cbn [Nat.pred].
      rewrite split_scan_skip, join_cons by apply split_scan_nonempty.
      rewrite IH; [done|]. simpl in Hlen. rewrite length_app in Hlen. lia.
    + rewrite IH by (simpl in Hlen; lia). by rewrite <-app_assoc.
Qed.

End DelimitedStringSplit.

Section DelimitedStringExtras.

Import DelimitedString.
Local Open Scope list_scope.

Implicit Types (s p sep : str) (d : ascii) (l choices : list str).
Implicit Types (v : cli_value).

(** X1: for every non-empty separator, [split] succeeds with at least one
    piece, and joining the pieces with the separator gives the string back. *)
Theorem join_split_inverse sep s :
  sep ≠ [] → ∃ l, split sep s = Some l ∧ l ≠ [] ∧ join sep l = s.
Proof.
  intros Hsep. exists (split_scan sep 0 [] s).
  split; [by destruct sep|].
  split; [apply split_scan_nonempty|].
  by rewrite (join_split_scan sep (length s)).
Qed.

Lemma join_split_inverse_witness :
  ∃ l, split (chars "--") (chars "a- --b--") = Some l ∧ l ≠ []
       ∧ join (chars "--") l = chars "a- --b--".
Proof. apply (join_split_inverse (chars "--") (chars "a- --b--")). discriminate. Defined.

(** The pieces a value is cut into before the choices are looked at. *)
Lemma convert_no_choices_pieces sep v l :
  convert sep [] v = Converted l →
  match v with
  | ListValue items => l = map strip items
  | StrValue s => ∃ pieces, split sep s = Some pieces ∧ l = map strip pieces
  end.
Proof.
  unfold convert. destruct v as [items|s]; simpl.
  - by intros [= <-].
  - destruct (split sep s) as [pieces|]; simpl; [|done].
    intros [= <-]. by exists pieces.
Qed.












End DelimitedStringExtras.

(** ** Further properties of the file-or-JSON and JSON parsers *)

Section FileOrJsonExtras.

Import FileOrJson.

Variable expanduser abspath resolve : string → string.
Variable isfile : string → bool.
Variable json_loads : string → option pyval.

Local Abbreviation run := (convert expanduser abspath isfile resolve json_loads).



(** X7: every run starts with the file test on the expanded absolute path
    and makes at most one further call, the JSON decoding of the value. *)
Theorem convert_trace_shape allow_raw_str value :
  (run allow_raw_str value).1 = [IsFile (abspath (expanduser (fspath value)))]
  ∨ (run allow_raw_str value).1
    = [IsFile (abspath (expanduser (fspath value))); JsonLoads (fspath value)].
Proof.
  unfold convert, bind, call_isfile, call_json_loads, ret. simpl.
  destruct (isfile _); [by left|].
  destruct value as [s|p]; simpl; [|by left].
  right. destruct (json_loads s); [done|]. by destruct allow_raw_str.
Qed.

(** X8: on a string that is no existing file, a parser without the raw
    fallback agrees with the JSON parser [Dict]: the same value when the
    string decodes, a failure of each when it does not. *)
Theorem file_or_json_agrees_with_dict s :
  isfile (abspath (expanduser s)) = false →
  match Dict.convert json_loads s with
  | Dict.Converted v => (run false (StrValue s)).2 = Converted v
  | Dict.InvalidValue _ =>
      (run false (StrValue s)).2
      = InvalidValue (s +:+ " is not a valid json string nor an existing filepath.")
  end.
Proof.
  intros Hfile. rewrite convert_str. simpl. rewrite Hfile. unfold Dict.convert.
  by destruct (json_loads s).
Qed.

End FileOrJsonExtras.

Section FileOrJsonExtrasWitness.

Import FileOrJson FileOrJsonExample.



Lemma file_or_json_agrees_with_dict_witness :
  (convert expanduser abspath isfile resolve json_loads false (StrValue "{oops")).2
  = InvalidValue "{oops is not a valid json string nor an existing filepath.".
Proof.
  apply (file_or_json_agrees_with_dict expanduser abspath resolve isfile json_loads
           "{oops").
  reflexivity.
Defined.

End FileOrJsonExtrasWitness.

(** ** Further properties of option registration *)

Section RegistrationOutcome.

Import CliMixin.
Local Open Scope list_scope.

Implicit Types (st : loop_state) (os seen pre : list string).
Implicit Types (p : click_Parameter) (ps qs : list click_Parameter).
Implicit Types (cmd : Command).

Lemma appended_length ps : length (appended ps) = length (spellings ps).
Proof.
  unfold appended, spellings. induction ps as [|p ps IH]; simpl; [done|].
  by rewrite !length_app, length_replicate, IH.
Qed.

Lemma appended_subset ps : Forall (λ q, q ∈ ps) (appended ps).
Proof.
  unfold appended. induction ps as [|p ps IH]; simpl; [constructor|].
  apply Forall_app. split.
  - apply Forall_forall. intros q [-> _]%elem_of_replicate. left.
  - eapply Forall_impl; [exact IH|]. intros q Hq. by right.
Qed.

(** The inner loop, with what it leaves behind when it raises: the
    spellings before the first repeated one stay registered. *)
Lemma add_opts_outcome cmd_name p os st :
  (fresh (existing_opts st) os
   ∧ add_opts cmd_name p os st = (extend st os (replicate (length os) p), Returned))
  ∨ (∃ pre o post, os = pre ++ o :: post ∧ fresh (existing_opts st) pre
     ∧ o ∈ existing_opts st ++ pre
     ∧ add_opts cmd_name p os st
       = (extend st pre (replicate (length pre) p),
          ValueError (duplicate_message o cmd_name))).
Proof.
  revert st. induction os as [|o os IH]; intros st; simpl.
  - left. split; [apply fresh_nil|]. by rewrite extend_nil.
  - case_bool_decide as Hin.
    + right. exists [], o, os. rewrite app_nil_r, extend_nil.
      split; [done|]. split; [apply fresh_nil|done].
    + destruct (IH (extend st [o] [p]))
        as [[Hfr Hrun]|(pre & o' & post & -> & Hfr & Ho' & Hrun)].
      * left. split; [by apply fresh_cons|].
        unfold extend in Hrun |- *. simpl in Hrun |- *.
        rewrite Hrun. by rewrite <-!app_assoc.
      * right. exists (o :: pre), o', post. split; [done|].
        split; [by apply fresh_cons|].
        simpl in Ho'. rewrite <-app_assoc in Ho'. split; [done|].
        unfold extend in Hrun |- *. simpl in Hrun |- *.
        rewrite Hrun. by rewrite <-!app_assoc.
Qed.

(** The same for the outer loop. *)
Lemma add_each_outcome cmd_name ps st :
  (fresh (existing_opts st) (spellings ps)
   ∧ add_each cmd_name ps st = (extend st (spellings ps) (appended ps), Returned))
  ∨ (∃ pre o post qs, spellings ps = pre ++ o :: post
     ∧ fresh (existing_opts st) pre ∧ o ∈ existing_opts st ++ pre
     ∧ length qs = length pre ∧ Forall (λ q, q ∈ ps) qs
     ∧ add_each cmd_name ps st
       = (extend st pre qs, ValueError (duplicate_message o cmd_name))).
Proof.
  revert st. induction ps as [|p ps IH]; intros st; simpl.
  - left. split; [apply fresh_nil|]. by rewrite extend_nil.
  - destruct (add_opts_outcome cmd_name p (opts p) st)
      as [[Hfr Hrun]|(pre & o & post & Hos & Hfr & Ho & Hrun)]; rewrite Hrun.
    + destruct (IH (extend st (opts p) (replicate (length (opts p)) p)))
        as [[Hfr' Hrun']|(pre & o & post & qs & Hsp & Hfr' & Ho & Hlen & Hqs & Hrun')];
        rewrite Hrun'.
      * left. split; [by apply fresh_app|]. by rewrite extend_extend.
      * right. exists (opts p ++ pre), o, post, (replicate (length (opts p)) p ++ qs).
        rewrite Hsp, <-app_assoc. split; [done|].
        split; [by apply fresh_app|].
        split; [simpl in Ho; by rewrite app_assoc|].
        split; [by rewrite !length_app, length_replicate, Hlen|].
        split; [|by rewrite extend_extend].
        apply Forall_app. split.
        -- apply Forall_forall. intros q [-> _]%elem_of_replicate. left.
        -- eapply Forall_impl; [exact Hqs|]. intros q Hq. by right.
    + right. exists pre, o, (post ++ spellings ps), (replicate (length pre) p).
      rewrite Hos, <-app_assoc. split; [done|]. split; [done|]. split; [done|].
      split; [by rewrite length_replicate|]. split; [|done].
      apply Forall_forall. intros q [-> _]%elem_of_replicate. left.
Qed.

Lemma add_params_outcome cmd ps :
  (fresh (spellings (params cmd)) (spellings ps)
   ∧ add_params cmd ps
     = ({| name := name cmd; params := params cmd ++ appended ps |}, Returned))
  ∨ (∃ pre o post qs, spellings ps = pre ++ o :: post
     ∧ fresh (spellings (params cmd)) pre ∧ o ∈ spellings (params cmd) ++ pre
     ∧ length qs = length pre ∧ Forall (λ q, q ∈ ps) qs
     ∧ add_params cmd ps
       = ({| name := name cmd; params := params cmd ++ qs |},
          ValueError (duplicate_message o (name cmd)))).
Proof.
  unfold add_params.
  destruct (add_each_outcome (name cmd) ps
              {| existing_opts := flat_map opts (params cmd);
                 cmd_params := params cmd |})
    as [[Hfr Hrun]|(pre & o & post & qs & Hsp & Hfr & Ho & Hlen & Hqs & Hrun)];
    rewrite Hrun.
  - by left.
  - right. by exists pre, o, post, qs.
Qed.

End RegistrationOutcome.

Section RegistrationExtras.

Import CliMixin.
Local Open Scope list_scope.

Implicit Types (st : loop_state) (os seen pre e : list string).
Implicit Types (p : click_Parameter) (ps qs : list click_Parameter).
Implicit Types (cmd : Command).

(** X9: [add_params] returns exactly when the new spellings are pairwise
    distinct and none is registered on the command; it then leaves the
    command with one new entry per flag spelling, [length (spellings ps)]
    in all, behind the entries it had. *)
Theorem add_params_returns_iff_fresh cmd ps :
  ((add_params cmd ps).2 = Returned ↔ fresh (spellings (params cmd)) (spellings ps))
  ∧ (fresh (spellings (params cmd)) (spellings ps) →
       add_params cmd ps
       = ({| name := name cmd; params := params cmd ++ appended ps |}, Returned)
       ∧ length (appended ps) = length (spellings ps)).
Proof.
  destruct (add_params_outcome cmd ps)
    as [[Hfr Hrun]|(pre & o & post & qs & Hsp & Hfr & Ho & Hlen & Hqs & Hrun)].
  - rewrite Hrun. split; [done|]. intros _. split; [done|apply appended_length].
  - assert (Hnf : ¬ fresh (spellings (params cmd)) (spellings ps)).
    { rewrite Hsp. by apply repeat_not_fresh. }
    rewrite Hrun. split; [by split|done].
Qed.

Lemma add_params_returns_iff_fresh_witness :
  add_params ingest_cmd [reprocess_option; verbose_option]
  = ({| name := "ingest";
        params := [recursive_option; reprocess_option; verbose_option; verbose_option] |},
     Returned)
  ∧ length (appended [reprocess_option; verbose_option]) = 3.
Proof.
  apply (add_params_returns_iff_fresh ingest_cmd [reprocess_option; verbose_option]).
  split.
  - apply (bool_decide_unpack _). reflexivity.
  - intros o Ho Hreg. apply list_elem_of_singleton in Hreg as ->.
    repeat (apply elem_of_cons in Ho as [Ho|Ho]; [discriminate|]).
    by apply elem_of_nil in Ho.
Defined.

(** X10: whether it returns or raises, [add_params] keeps the command's
    name and its registered entries, in place and in order, and what it adds
    behind them are options of the list it was given. *)
Theorem add_params_keeps_registered cmd ps :
  ∃ qs, (add_params cmd ps).1 = {| name := name cmd; params := params cmd ++ qs |}
        ∧ Forall (λ q, q ∈ ps) qs.
Proof.
  destruct (add_params_outcome cmd ps)
    as [[Hfr Hrun]|(pre & o & post & qs & Hsp & Hfr & Ho & Hlen & Hqs & Hrun)];
    rewrite Hrun.
  - exists (appended ps). split; [done|apply appended_subset].
  - by exists qs.
Qed.

(** X11: when [add_params] raises, the flag it names is the first spelling,
    in registration order, that repeats a registered or an earlier one, and
    the call is not undone: the command keeps one new entry for each
    spelling before that flag. *)
Theorem add_params_raise_first_repeat cmd ps cmd' msg :
  add_params cmd ps = (cmd', ValueError msg) →
  ∃ pre o post,
    spellings ps = pre ++ o :: post
    ∧ fresh (spellings (params cmd)) pre
    ∧ o ∈ spellings (params cmd) ++ pre
    ∧ msg = duplicate_message o (name cmd)
    ∧ length (params cmd') = length (params cmd) + length pre.
Proof.
  destruct (add_params_outcome cmd ps)
    as [[Hfr Hrun]|(pre & o & post & qs & Hsp & Hfr & Ho & Hlen & Hqs & Hrun)];
    rewrite Hrun; [done|].
  intros [= <- <-]. exists pre, o, post.
  split; [done|]. split; [done|]. split; [done|]. split; [done|].
  cbn [params]. by rewrite length_app, Hlen.
Qed.

Lemma add_params_raise_first_repeat_witness :
  ∃ pre o post,
    spellings [reprocess_option; verbose_option; recursive_option; reprocess_option]
    = pre ++ o :: post
    ∧ o = "--recursive" ∧ length pre = 3.
Proof.
  destruct (add_params_raise_first_repeat ingest_cmd
              [reprocess_option; verbose_option; recursive_option; reprocess_option]
              {| name := "ingest";
                 params := [recursive_option; reprocess_option;
                            verbose_option; verbose_option] |}
              "--recursive is already defined on the command ingest")
    as (pre & o & post & Hsp & _ & _ & Hmsg & Hlen); [reflexivity|].
  exists pre, o, post. split; [exact Hsp|].
  split; [|simpl in Hlen; lia].
  unfold duplicate_message in Hmsg.
  assert (Hlen3 : length pre = 3) by (simpl in Hlen; lia).
  destruct pre as [|a [|b [|c [|? ?]]]]; try discriminate.
  simpl in Hsp. by injection Hsp as _ _ _ <- _.
Defined.

Lemma add_each_app cmd_name ps1 ps2 st :
  add_each cmd_name (ps1 ++ ps2) st =
    match add_each cmd_name ps1 st with
    | (st', Returned) => add_each cmd_name ps2 st'
    | (st', ValueError msg) => (st', ValueError msg)
    end.
Proof.
  revert st. induction ps1 as [|p ps1 IH]; intros st; simpl; [done|].
  destruct (add_opts cmd_name p (opts p) st) as [st' [|msg]]; [apply IH|done].
Qed.

Lemma same_spellings_snoc e1 e2 o :
  same_spellings e1 e2 → same_spellings (e1 ++ [o]) (e2 ++ [o]).
Proof. intros He o'. rewrite !elem_of_app. by rewrite (He o'). Qed.

(** The loops read [existing_opts] through membership tests only. *)
Lemma add_opts_same cmd_name p os e1 e2 qs :
  same_spellings e1 e2 →
  ∃ e1' e2' qs' c,
    add_opts cmd_name p os {| existing_opts := e1; cmd_params := qs |}
    = ({| existing_opts := e1'; cmd_params := qs' |}, c)
    ∧ add_opts cmd_name p os {| existing_opts := e2; cmd_params := qs |}
      = ({| existing_opts := e2'; cmd_params := qs' |}, c)
    ∧ same_spellings e1' e2'.
Proof.
  revert e1 e2 qs. induction os as [|o os IH]; intros e1 e2 qs He; simpl.
  - by exists e1, e2, qs, Returned.
  - rewrite (bool_decide_ext (o ∈ e1) (o ∈ e2)) by apply He.
    case_bool_decide.
    + by eexists e1, e2, qs, _.
    + apply IH. by apply same_spellings_snoc.
Qed.

Lemma add_each_same cmd_name ps e1 e2 qs :
  same_spellings e1 e2 →
  ∃ e1' e2' qs' c,
    add_each cmd_name ps {| existing_opts := e1; cmd_params := qs |}
    = ({| existing_opts := e1'; cmd_params := qs' |}, c)
    ∧ add_each cmd_name ps {| existing_opts := e2; cmd_params := qs |}
      = ({| existing_opts := e2'; cmd_params := qs' |}, c)
    ∧ same_spellings e1' e2'.
Proof.
  revert e1 e2 qs. induction ps as [|p ps IH]; intros e1 e2 qs He; simpl.
  - by exists e1, e2, qs, Returned.
  - destruct (add_opts_same cmd_name p (opts p) e1 e2 qs He)
      as (e1' & e2' & qs' & c & -> & -> & He').
    destruct c as [|msg]; [by apply IH|].
    by eexists e1', e2', qs', _.
Qed.

Lemma spellings_appended ps :
  same_spellings (spellings ps) (flat_map opts (appended ps)).
Proof.
  intros o. unfold spellings, appended.
  rewrite !list_elem_of_In, !in_flat_map. split.
  - intros (p & Hp & Ho). exists p. split; [|done].
    apply in_flat_map. exists p. split; [done|].
    apply list_elem_of_In, elem_of_replicate. split; [done|].
    destruct (opts p); [by apply in_nil in Ho|done].
  - intros (q & (p & Hp & Hq)%in_flat_map & Ho).
    apply list_elem_of_In, elem_of_replicate in Hq as [-> _]. by exists p.
Qed.

(** Registering [ps1 ++ ps2] in one call is registering [ps1] and then, if
    that call returned, [ps2] on the command it left. *)
Lemma add_params_seq cmd ps1 ps2 :
  add_params cmd (ps1 ++ ps2) =
    match add_params cmd ps1 with
    | (cmd1, Returned) => add_params cmd1 ps2
    | (cmd1, ValueError msg) => (cmd1, ValueError msg)
    end.
Proof.
  destruct (add_params_outcome cmd ps1)
    as [[Hfr Hrun]|(pre & o & post & qs & Hsp & Hfr & Ho & Hlen & Hqs & Hrun)];
    rewrite Hrun.
  - unfold add_params in Hrun |- *. rewrite add_each_app.
    destruct (add_each_outcome (name cmd) ps1
                {| existing_opts := flat_map opts (params cmd);
                   cmd_params := params cmd |})
      as [[_ Hrun1]|(? & ? & ? & ? & ? & ? & ? & ? & ? & Hrun1)];
      rewrite Hrun1 in Hrun |- *; [|done].
    unfold extend. cbn [existing_opts cmd_params name params].
    destruct (add_each_same (name cmd) ps2
                (flat_map opts (params cmd) ++ spellings ps1)
                (flat_map opts (params cmd ++ appended ps1))
                (params cmd ++ appended ps1))
      as (e1' & e2' & qs' & c & -> & -> & _); [|done].
    intros o. rewrite flat_map_app, !elem_of_app.
    by rewrite (spellings_appended ps1 o).
  - unfold add_params in Hrun |- *. rewrite add_each_app.
    destruct (add_each (name cmd) ps1 _) as [st' [|msg]]; [done|].
    by injection Hrun as -> ->.
Qed.

(** X13: registration cannot be repeated: once a list with at least one
    spelling was registered, registering it again raises on its very first
    spelling and leaves the command as the first call left it. *)
Theorem add_params_twice_raises cmd ps cmd' :
  add_params cmd ps = (cmd', Returned) → spellings ps ≠ [] →
  ∃ o rest, spellings ps = o :: rest
            ∧ add_params cmd' ps = (cmd', ValueError (duplicate_message o (name cmd'))).
Proof.
  intros Hrun Hne.
  destruct (spellings ps) as [|o rest] eqn:Hsp; [done|]. exists o, rest. split; [done|].
  assert (Hcmd' : cmd' = {| name := name cmd; params := params cmd ++ appended ps |}).
  { destruct (add_params_outcome cmd ps)
      as [[_ Hrun']|(? & ? & ? & ? & ? & ? & ? & ? & ? & Hrun')];
      rewrite Hrun' in Hrun; by injection Hrun. }
  assert (Hin : o ∈ spellings ps) by (rewrite Hsp; left).
  assert (Hreg : o ∈ spellings (params cmd')).
  { rewrite Hcmd'. unfold spellings at 1. cbn [params].
    rewrite flat_map_app, elem_of_app. right.
    by apply (spellings_appended ps o). }
  destruct (add_params_outcome cmd' ps)
    as [[Hfr _]|(pre & o' & post & qs & Hsp' & Hfr & Ho & Hlen & Hqs & Hrun')].
  - exfalso. rewrite Hsp in Hfr. destruct Hfr as [_ Hfr]. apply (Hfr o); [left|done].
  - rewrite Hsp in Hsp'. destruct pre as [|a pre].
    + simpl in Hsp'. injection Hsp' as <- _.
      destruct qs; [|done]. rewrite Hrun', app_nil_r. by destruct cmd'.
    + exfalso. simpl in Hsp'. injection Hsp' as <- _.
      apply fresh_cons in Hfr as [Hfr _]. done.
Qed.

Lemma add_params_twice_raises_witness :
  ∃ o rest, spellings [verbose_option] = o :: rest
    ∧ add_params {| name := "ingest";
                    params := [recursive_option; verbose_option; verbose_option] |}
        [verbose_option]
      = ({| name := "ingest";
            params := [recursive_option; verbose_option; verbose_option] |},
         ValueError (duplicate_message o "ingest")).
Proof.
  apply (add_params_twice_raises ingest_cmd [verbose_option]
           {| name := "ingest";
              params := [recursive_option; verbose_option; verbose_option] |});
    [reflexivity|discriminate].
Defined.

End RegistrationExtras.

Section OptionTables.

Import CliMixin CliOptions.
Local Open Scope list_scope.

Implicit Types (cmd : Command) (tables : list (list click_Parameter)).

Lemma add_params_nil cmd : add_params cmd [] = (cmd, Returned).
Proof. by destruct cmd. Qed.

Lemma add_all_concat tables cmd :
  add_all tables cmd = add_params cmd (concat tables).
Proof.
  revert cmd. induction tables as [|t tables IH]; intros cmd; simpl.
  - by rewrite add_params_nil.
  - unfold add_cli_options. rewrite add_params_seq.
    destruct (add_params cmd t) as [cmd1 [|msg]]; [apply IH|done].
Qed.

(** X12: registration composes: registering [ps1 ++ ps2] in one call is
    registering [ps1] and then, if that returned, [ps2] on the command it
    left (a raise of the first call ends the one call the same way); so
    calling [add_cli_options] class after class is one [add_params] of all
    their options. *)
Theorem add_cli_options_in_sequence cmd :
  (∀ ps1 ps2,
     add_params cmd (ps1 ++ ps2) =
       match add_params cmd ps1 with
       | (cmd1, Returned) => add_params cmd1 ps2
       | (cmd1, ValueError msg) => (cmd1, ValueError msg)
       end)
  ∧ (∀ tables, add_all tables cmd = add_params cmd (concat tables)).
Proof.
  split.
  - intros ps1 ps2. apply add_params_seq.
  - intros tables. apply add_all_concat.
Qed.

(** X14: the flags of the retry, processor, read, partition, chunking,
    embedding and permissions tables are pairwise distinct: on a command
    holding none of them, adding the seven classes one after the other
    returns, and leaves 45 new entries for their 44 options. *)
Theorem pipeline_tables_register_together cmd :
  (∀ o, o ∈ spellings (concat pipeline_tables) → o ∉ spellings (params cmd)) →
  add_all pipeline_tables cmd
  = ({| name := name cmd; params := params cmd ++ appended (concat pipeline_tables) |},
     Returned)
  ∧ length (appended (concat pipeline_tables)) = 45
  ∧ length (concat pipeline_tables) = 44.
Proof.
  intros Hnew. split; [|by vm_compute].
  rewrite add_all_concat. apply add_params_fresh. split; [|done].
  apply (bool_decide_unpack _). by vm_compute.
Qed.

Lemma pipeline_tables_register_together_witness :
  (add_all pipeline_tables bare_cmd).2 = Returned
  ∧ length (params (add_all pipeline_tables bare_cmd).1) = 45.
Proof.
  destruct (pipeline_tables_register_together bare_cmd) as [-> _].
  - intros o _ Hreg. by apply elem_of_nil in Hreg.
  - split; reflexivity.
Defined.

(** X15: [CliRecursiveConfig] and [CliFilesStorageConfig] both declare
    [--recursive]: on no command can the two classes add their options one
    after the other without the [ValueError] of a repeated flag. *)
Theorem recursive_tables_collide cmd :
  ∃ cmd' o, add_all [recursive_options; files_storage_options] cmd
            = (cmd', ValueError (duplicate_message o (name cmd)))
            ∧ o ∈ spellings (recursive_options ++ files_storage_options).
Proof.
  rewrite add_all_concat.
  destruct (add_params_repeat cmd (concat [recursive_options; files_storage_options]))
    as (cmd' & o & pre & post & Hrun & Hsp & _).
  - apply (repeat_not_fresh _ ["--recursive"; "--remote-url"; "--uncompress"]
             "--recursive" ["--file-glob"]).
    rewrite elem_of_app. right. left.
  - exists cmd', o. split; [done|].
    change (spellings (recursive_options ++ files_storage_options))
      with (spellings (concat [recursive_options; files_storage_options])).
    rewrite Hsp, elem_of_app. right. left.
Qed.

End OptionTables.

(** ** Further properties of the reconciliation steps *)

Section ReconciliationExtras.

Implicit Types (kvs : gmap string pyval) (p k : string) (v : pyval).

(** The comprehension reads the keys behind the prefix and no other. *)
Lemma strip_prefix_agree p kvs1 kvs2 :
  (∀ k, startswith p k = true → kvs1 !! k = kvs2 !! k) →
  strip_prefix p kvs1 = strip_prefix p kvs2.
Proof.
  intros Hag. apply map_eq. intros k.
  rewrite !strip_prefix_lookup. apply Hag, startswith_app.
Qed.

Lemma get_agree kvs1 kvs2 k : kvs1 !! k = kvs2 !! k → get kvs1 k = get kvs2 k.
Proof. unfold get. by intros ->. Qed.

Lemma remaining_flags_agree kvs1 kvs2 k :
  kvs1 !! k = kvs2 !! k → remaining_flags kvs1 !! k = remaining_flags kvs2 !! k.
Proof. intros Hk. unfold remaining_flags. rewrite !lookup_delete. by rewrite Hk. Qed.

(** X16: [CliChunkingConfig.from_dict] reads [chunking_strategy] and the
    [chunk_]-prefixed keys and nothing else: two mappings that agree on
    those keys are reconciled alike, whatever other flags they hold. *)
Theorem chunking_reads_chunk_keys_only kvs1 kvs2 :
  (∀ k, startswith "chunk_" k = true ∨ k = "chunking_strategy" →
        kvs1 !! k = kvs2 !! k) →
  CliChunkingConfig.from_dict kvs1 = CliChunkingConfig.from_dict kvs2.
Proof.
  intros Hag.
  assert (Hce : get kvs1 "chunk_elements" = get kvs2 "chunk_elements")
    by (apply get_agree, Hag; by left).
  assert (Hcs : get kvs1 "chunking_strategy" = get kvs2 "chunking_strategy")
    by (apply get_agree, Hag; by right).
  assert (Hun : chunking_unset kvs1 = chunking_unset kvs2)
    by (unfold chunking_unset; by rewrite Hce, Hcs).
  destruct (chunking_unset kvs2) eqn:Hu.
  - by rewrite !from_dict_unfold, Hun, Hu.
  - rewrite !from_dict_set by done. f_equal. apply map_eq. intros k.
    rewrite !merged_fields_lookup by done.
    rewrite (remaining_flags_agree kvs1 kvs2)
      by (apply Hag; left; apply startswith_app).
    by rewrite Hcs.
Qed.

Lemma chunking_reads_chunk_keys_only_witness :
  CliChunkingConfig.from_dict (<["strategy" := PyStr "hi_res"]> both_flags)
  = CliChunkingConfig.from_dict both_flags.
Proof.
  apply (chunking_reads_chunk_keys_only (<["strategy" := PyStr "hi_res"]> both_flags)
           both_flags).
  intros k Hk. apply lookup_insert_ne. intros <-. by destruct Hk.
Defined.

(** X17: a key [chunk_chunking_strategy] takes the strategy over: whenever
    chunking is requested, the record is built with that key's value as its
    [chunking_strategy], whatever the two strategy flags say. *)
Theorem chunking_prefixed_strategy_wins kvs v :
  truthy (get kvs "chunk_elements") = true ∨ truthy (get kvs "chunking_strategy") = true →
  kvs !! "chunk_chunking_strategy" = Some v →
  ∃ r, CliChunkingConfig.from_dict kvs = Built r ∧ r !! "chunking_strategy" = Some v.
Proof.
  intros Hset%chunking_unset_false Hv. exists (merged_fields kvs).
  split; [by apply from_dict_set|].
  rewrite merged_fields_lookup by done.
  unfold remaining_flags. rewrite !lookup_delete_ne by done.
  change ("chunk_" +:+ "chunking_strategy") with "chunk_chunking_strategy".
  by rewrite Hv.
Qed.

Lemma chunking_prefixed_strategy_wins_witness :
  ∃ r, CliChunkingConfig.from_dict colliding_flags = Built r
       ∧ r !! "chunking_strategy" = Some (PyStr "by_title").
Proof.
  apply (chunking_prefixed_strategy_wins colliding_flags (PyStr "by_title"));
    [right|]; reflexivity.
Defined.

(** X18: every field of the record built for chunking is either the
    resolved [chunking_strategy] or the value of the flag carrying its name
    behind [chunk_]; the legacy flag [chunk_elements] itself never becomes a
    field [elements]. *)
Theorem chunking_fields_provenance kvs r :
  CliChunkingConfig.from_dict kvs = Built r →
  r !! "elements" = None
  ∧ is_Some (r !! "chunking_strategy")
  ∧ (∀ k v, r !! k = Some v →
       k = "chunking_strategy" ∨ (k ≠ "elements" ∧ kvs !! ("chunk_" +:+ k) = Some v)).
Proof.
  intros Hr. destruct (chunking_unset kvs) eqn:Hu.
  { by rewrite from_dict_unfold, Hu in Hr. }
  rewrite from_dict_set in Hr by done. injection Hr as <-.
  split; [|split].
  - rewrite merged_fields_lookup by done. unfold remaining_flags.
    rewrite lookup_delete_ne by done.
    change ("chunk_" +:+ "elements") with "chunk_elements".
    by rewrite lookup_delete_eq.
  - by apply merged_fields_has_strategy.
  - intros k v. rewrite merged_fields_lookup by done.
    destruct (decide (k = "chunking_strategy")) as [->|Hk]; [by left|].
    destruct (remaining_flags kvs !! ("chunk_" +:+ k)) as [w|] eqn:Hw; [|done].
    intros [= ->]. right. unfold remaining_flags in Hw.
    apply lookup_delete_Some in Hw as [_ Hw].
    apply lookup_delete_Some in Hw as [Hne Hw].
    split; [|done]. by intros ->.
Qed.

Lemma chunking_fields_provenance_witness :
  merged_fields legacy_flags !! "elements" = None
  ∧ merged_fields legacy_flags !! "max_characters" = Some (PyInt 500).
Proof.
  destruct (chunking_fields_provenance legacy_flags (merged_fields legacy_flags))
    as (Hel & _ & _); [reflexivity|].
  split; [exact Hel|reflexivity].
Defined.

(** X19: [CliEmbeddingConfig.from_dict] reads the [embedding_]-prefixed
    keys and nothing else: mappings that agree on them are reconciled
    alike. *)
Theorem embedding_reads_prefixed_keys_only kvs1 kvs2 :
  (∀ k, startswith "embedding_" k = true → kvs1 !! k = kvs2 !! k) →
  CliEmbeddingConfig.from_dict kvs1 = CliEmbeddingConfig.from_dict kvs2.
Proof.
  intros Hag. unfold CliEmbeddingConfig.from_dict.
  by rewrite (strip_prefix_agree "embedding_" kvs1 kvs2).
Qed.

Lemma embedding_reads_prefixed_keys_only_witness :
  CliEmbeddingConfig.from_dict (delete "strategy" provider_flags)
  = CliEmbeddingConfig.from_dict provider_flags.
Proof.
  apply (embedding_reads_prefixed_keys_only (delete "strategy" provider_flags)
           provider_flags).
  intros k Hk. apply lookup_delete_ne. intros <-. discriminate.
Defined.

(** X20: [CliPermissionsConfig.from_dict] reads the [permissions_]-prefixed
    keys and nothing else: mappings that agree on them are reconciled
    alike, the raised error included. *)
Theorem permissions_reads_prefixed_keys_only kvs1 kvs2 :
  (∀ k, startswith "permissions_" k = true → kvs1 !! k = kvs2 !! k) →
  CliPermissionsConfig.from_dict kvs1 = CliPermissionsConfig.from_dict kvs2.
Proof.
  intros Hag. unfold CliPermissionsConfig.from_dict.
  rewrite (strip_prefix_agree "permissions_" kvs1 kvs2) by done.
  by rewrite !(get_agree kvs1 kvs2) by (by apply Hag).
Qed.

Lemma permissions_reads_prefixed_keys_only_witness :
  CliPermissionsConfig.from_dict (<["strategy" := PyStr "fast"]> tenant_only_flags)
  = CliPermissionsConfig.from_dict tenant_only_flags.
Proof.
  apply (permissions_reads_prefixed_keys_only
           (<["strategy" := PyStr "fast"]> tenant_only_flags) tenant_only_flags).
  intros k Hk. apply lookup_insert_ne. intros <-. discriminate.
Defined.

(** X21: with none of the three permissions flags set, the result is [None]
    only when the mapping has no [permissions_]-prefixed key at all; a key
    that is present, be it with the value [None], makes [from_dict] build a
    record from the prefixed keys. *)
Theorem permissions_unset_keys_build_record kvs :
  truthy (get kvs "permissions_application_id") = false →
  truthy (get kvs "permissions_client_cred") = false →
  truthy (get kvs "permissions_tenant") = false →
  (CliPermissionsConfig.from_dict kvs = Absent ↔
     ∀ k, startswith "permissions_" k = true → kvs !! k = None)
  ∧ ((∃ k, is_Some (kvs !! ("permissions_" +:+ k))) →
       CliPermissionsConfig.from_dict kvs = Built (strip_prefix "permissions_" kvs)).
Proof.
  intros Ha Hc Ht.
  assert (Hrun : CliPermissionsConfig.from_dict kvs =
                 if (len (strip_prefix "permissions_" kvs) =? 0)%nat then Absent
                 else Built (strip_prefix "permissions_" kvs)).
  { unfold CliPermissionsConfig.from_dict. cbn [existsb forallb].
    by rewrite Ha, Hc, Ht. }
  rewrite Hrun. split.
  - split.
    + destruct (len _ =? 0)%nat eqn:Hlen; [|done]. intros _ k Hk.
      apply len_zero_empty in Hlen.
      rewrite <-(startswith_split "permissions_" k Hk), <-strip_prefix_lookup, Hlen.
      apply lookup_empty.
    + intros Hno. by rewrite strip_prefix_empty, (proj2 (len_zero_empty ∅)).
  - intros [k Hk]. by rewrite (strip_prefix_nonempty "permissions_" kvs k).
Qed.

Lemma permissions_unset_keys_build_record_witness :
  ∃ r, CliPermissionsConfig.from_dict unset_permissions_flags = Built r
       ∧ r !! "tenant" = Some PyNone.
Proof.
  destruct (permissions_unset_keys_build_record unset_permissions_flags)
    as [_ Hbuilt]; [reflexivity..|].
  exists (strip_prefix "permissions_" unset_permissions_flags). split.
  - apply Hbuilt. exists "tenant". by eexists.
  - rewrite strip_prefix_lookup. reflexivity.
Defined.

(** X22: [CliRetryStrategyConfig.from_dict] builds the record exactly when
    [max_retries] or [max_retry_time] holds a truthy value, and then from
    the whole mapping as it stands, other keys included; in every other
    case it returns [None], and it never raises. *)
Theorem retry_record_iff_truthy kvs :
  (CliRetryStrategyConfig.from_dict kvs = Built kvs ↔
     truthy (get kvs "max_retries") || truthy (get kvs "max_retry_time") = true)
  ∧ (CliRetryStrategyConfig.from_dict kvs = Absent ↔
       truthy (get kvs "max_retries") || truthy (get kvs "max_retry_time") = false).
Proof.
  rewrite retry_from_dict_truthy.
  by destruct (truthy (get kvs "max_retries") || truthy (get kvs "max_retry_time")).
Qed.

End ReconciliationExtras.
